(** * MotionObservable: the operator engine of material-motion-js

    A shallow embedding of [MotionObservable] (the observable stream class
    with its operators [mapTo], [inverted], [pluck], [dedupe], [log], [_map],
    [_filter], [_remember], [_debounce] and the construction primitive
    [_nextOperator]) together with theorems about its behaviour.

    JavaScript closures that the program stores in mutable state (observers
    kept in a [Set], the subscription kept by [_remember], the callback handed
    to [requestAnimationFrame]) are represented by their code and captured
    variables: one constructor per function literal of the source, run by the
    interpreters [callNext], [subscribe] and [unsubscribe].  Mutable
    variables captured by those closures live in the [world], keyed by the
    cell that stands for one call of the operator.

    [merge] and [_read] are modelled further down, [merge] as a stream of its
    own kind at the end of a chain.  [mapRange] (floating point) and the
    static [from] are outside this development. *)

From Stdlib Require Import Ascii.
From stdpp Require Import gmap strings list.

Set Warnings "-register-all".

Local Open Scope Z_scope.
Local Open Scope string_scope.

(** ** Values *)

(** JavaScript values, as far as the operators inspect them.  Numbers are the
    integer-valued ones; objects are records of own properties in insertion
    order; [VFunction] is an opaque function value. *)
Inductive value : Type :=
| VUndefined
| VNull
| VBool (b : bool)
| VNum (n : Z)
| VStr (s : string)
| VObj (props : list (string * value))
| VFunction (name : string).

Inductive error : Type :=
| TypeError (key : string) (base : value).
  (* Cannot read property [key] of [base] *)

(** The outcome of evaluating a JavaScript expression: a value, or an
    exception on its way up the call stack. *)
Inductive completion (A : Type) : Type :=
| Normal (a : A)
| Throw (e : error).
Arguments Normal {A} a.
Arguments Throw {A} e.

Definition isNullish (v : value) : bool :=
  match v with
  | VUndefined | VNull => true
  | _ => false
  end.

(** Truthiness of a string: only the empty string is falsy. *)
Definition truthyString (s : string) : bool :=
  match s with
  | EmptyString => false
  | String _ _ => true
  end.

Fixpoint lookupProp (key : string) (props : list (string * value)) : option value :=
  match props with
  | [] => None
  | (k, v) :: rest => if String.eqb k key then Some v else lookupProp key rest
  end.

(** [String.prototype.split] with a one-character separator. *)
Fixpoint splitAux (sep : Ascii.ascii) (s : string) (current : string) : list string :=
  match s with
  | EmptyString => [current]
  | String c rest =>
      if Ascii.eqb c sep
      then current :: splitAux sep rest EmptyString
      else splitAux sep rest (current ++ String c EmptyString)
  end.

Definition split (sep : Ascii.ascii) (s : string) : list string :=
  splitAux sep s EmptyString.

(** Modelled from the spec: the deep-equality algorithm that [dedupe] uses as
    its default comparator (the [deep-equal] package): deep structural
    equality, objects compared property by property whatever the order. *)
Fixpoint deepEqual (a b : value) {struct a} : bool :=
  match a, b with
  | VUndefined, VUndefined => true
  | VNull, VNull => true
  | VBool x, VBool y => Bool.eqb x y
  | VNum x, VNum y => Z.eqb x y
  | VStr x, VStr y => String.eqb x y
  | VFunction x, VFunction y => String.eqb x y
  | VObj ps, VObj qs =>
      Nat.eqb (length ps) (length qs) &&
      (fix every (ps : list (string * value)) : bool :=
         match ps with
         | [] => true
         | (k, v) :: rest =>
             match lookupProp k qs with
             | Some v' => deepEqual v v'
             | None => false
             end && every rest
         end) ps
  | _, _ => false
  end.

(** ** The path resolver *)

Section Plucker.

(** What a property read yields on a value that is neither [null] nor
    [undefined] when the key is not an own property of a record: whatever
    the prototype chain or the boxed primitive provides.  The theorems hold
    for every such environment. *)
Variable inherited : value -> string -> value.

(** [result[pathSegment]] *)
Definition getProperty (result : value) (pathSegment : string) : completion value :=
  match result with
  | VUndefined | VNull => Throw (TypeError pathSegment result)
  | VObj props =>
      match lookupProp pathSegment props with
      | Some v => Normal v
      | None => Normal (inherited result pathSegment)
      end
  | _ => Normal (inherited result pathSegment)
  end.

(** The [for ... of] loop of [plucker]. *)
Fixpoint walk (pathSegments : list string) (result : value) : completion value :=
  match pathSegments with
  | [] => Normal result
  | pathSegment :: rest =>
      match getProperty result pathSegment with
      | Normal result' => walk rest result'
      | Throw e => Throw e
      end
  end.

Definition createPlucker (path : string) : value -> completion value :=
  let pathSegments := split "."%char path in
  fun value => walk pathSegments value.

End Plucker.

(** ** Streams, observers and subscriptions *)

(** A cell stands for the variables captured by one call of a stateful
    operator ([dedupe], [_remember], [_debounce]) or for one root producer. *)
Abbreviation loc := nat (only parsing).

(** The runtime constructor of a stream object: the base class or a
    subclass of it. *)
Inductive constructor : Type :=
| MotionObservableClass
| Subclass (name : string).

(** The function literals passed to [_nextOperator], with the variables
    they capture. *)
Inductive operation : Type :=
| MapToOperation (constant : value)
| InvertedOperation
| MapOperation (transform : value -> completion value)
| FilterOperation (predicate : value -> bool)
| DedupeOperation (cell : loc) (areEqual : value -> value -> bool)
| LogOperation (label : string) (plucker : option (value -> completion value))
| DebounceOperation (cell : loc).

(** A stream is its runtime constructor and its connect function. *)
Inductive stream : Type :=
| Source (ctor : constructor) (cell : loc)
| NextOperator (ctor : constructor) (op : operation) (this : stream)
| Remember (cell : loc) (this : stream).

(** Object identity of observers: an observer object handed to [subscribe]
    keeps its own identity, a bare function is wrapped in a fresh object. *)
Inductive ident : Type :=
| Named (n : nat)
| Wrapped (n : nat).

Definition ident_eqb (a b : ident) : bool :=
  match a, b with
  | Named x, Named y => Nat.eqb x y
  | Wrapped x, Wrapped y => Nat.eqb x y
  | _, _ => false
  end.

(** The [next] functions: of a subscriber at the end of a chain, of the
    observer that [_nextOperator] subscribes upstream, and of the one that
    [_remember] subscribes upstream.  A subscriber records what it receives
    and may then react: subscribe another observer to a stream when it
    receives its [count]-th value, or feed the value back into a root
    producer. *)
Inductive nextFn : Type :=
| SinkNext (name : nat) (react : reaction)
| OperatorNext (op : operation) (down : nextFn)
| RememberNext (cell : loc)
with reaction : Type :=
| Quiet
| SubscribeAt (count : nat) (target : stream) (who : ident) (newcomer : nextFn)
| FeedBack (cell : loc).

Record observerObj : Type := Observer { identity : ident; next : nextFn }.

(** What a connect function returns, and [subscription.unsubscribe] itself
    where [_nextOperator] returns it.  [None] is a connect that returned
    nothing. *)
Inductive disconnect : Type :=
| SourceDisconnect (cell : loc) (who : ident)
| RememberDisconnect (cell : loc) (who : ident)
| UnsubscribeOf (inner : option disconnect).

Definition subscription : Type := option disconnect.

(** The callback [_debounce] hands to [requestAnimationFrame]. *)
Inductive frameCallback : Type :=
| DebounceFrame (cell : loc) (nextChannel : nextFn).

(** ** Sets of observers

    A JavaScript [Set] keeps insertion order; a deleted entry leaves a hole
    that [forEach] skips, and entries added while [forEach] runs are
    visited. *)
Definition observerSet : Type := list (option observerObj).

Definition holds (who : ident) (entry : option observerObj) : bool :=
  match entry with
  | Some o => ident_eqb (identity o) who
  | None => false
  end.

Definition setHas (who : ident) (s : observerSet) : bool := existsb (holds who) s.

Definition occupied (entry : option observerObj) : bool :=
  match entry with
  | Some _ => true
  | None => false
  end.

Definition setSize (s : observerSet) : nat := length (List.filter occupied s).

Definition setAdd (o : observerObj) (s : observerSet) : observerSet :=
  if setHas (identity o) s then s else (s ++ [Some o])%list.

Definition setDelete (who : ident) (s : observerSet) : observerSet :=
  map (fun entry => if holds who entry then None else entry) s.

(** ** The world *)

(** Modelled from the spec: a root producer built on the external observable
    primitive (a subject): it keeps its observers, hands every value it is
    given to each of them, and counts the subscribe and unsubscribe calls it
    has seen. *)
Record sourceState : Type := SourceState {
  sourceObservers : observerSet;
  connects : nat;
  disconnects : nat
}.

(** [let dispatched = false; let lastValue] of [dedupe]. *)
Record dedupeState : Type := DedupeState {
  dispatched : bool;
  dedupeLastValue : value
}.

(** [observers], [subscription], [lastValue], [hasStarted] of [_remember]. *)
Record rememberState : Type := RememberState {
  observers : observerSet;
  upstream : option subscription;
  lastValue : value;
  hasStarted : bool
}.

(** [queuedFrameID], [lastValue] of [_debounce]. *)
Record debounceState : Type := DebounceState {
  queuedFrameID : option Z;
  debounceLastValue : value
}.

Definition newSource : sourceState := SourceState [] 0 0.
Definition newDedupe : dedupeState := DedupeState false VUndefined.
Definition newRemember : rememberState := RememberState [] None VUndefined false.
Definition newDebounce : debounceState := DebounceState None VUndefined.

Record world : Type := World {
  sources : gmap loc sourceState;
  dedupes : gmap loc dedupeState;
  groups : gmap loc rememberState;
  debounces : gmap loc debounceState;
  frames : list (positive * frameCallback);
  nextFrame : positive;
  nextWrapper : nat;
  consoleLog : list (string * value);
  consoleWarn : list ident;
  deliveries : list (nat * value)
}.

Definition emptyWorld : world := World ∅ ∅ ∅ ∅ [] 1%positive 0 [] [] [].

Definition sourceAt (cell : loc) (w : world) : sourceState :=
  default newSource (sources w !! cell).
Definition dedupeAt (cell : loc) (w : world) : dedupeState :=
  default newDedupe (dedupes w !! cell).
Definition groupAt (cell : loc) (w : world) : rememberState :=
  default newRemember (groups w !! cell).
Definition debounceAt (cell : loc) (w : world) : debounceState :=
  default newDebounce (debounces w !! cell).

Definition setSource (cell : loc) (s : sourceState) (w : world) : world :=
  World (<[cell := s]> (sources w)) (dedupes w) (groups w) (debounces w)
    (frames w) (nextFrame w) (nextWrapper w) (consoleLog w) (consoleWarn w)
    (deliveries w).
Definition setDedupe (cell : loc) (s : dedupeState) (w : world) : world :=
  World (sources w) (<[cell := s]> (dedupes w)) (groups w) (debounces w)
    (frames w) (nextFrame w) (nextWrapper w) (consoleLog w) (consoleWarn w)
    (deliveries w).
Definition setGroup (cell : loc) (s : rememberState) (w : world) : world :=
  World (sources w) (dedupes w) (<[cell := s]> (groups w)) (debounces w)
    (frames w) (nextFrame w) (nextWrapper w) (consoleLog w) (consoleWarn w)
    (deliveries w).
Definition setDebounce (cell : loc) (s : debounceState) (w : world) : world :=
  World (sources w) (dedupes w) (groups w) (<[cell := s]> (debounces w))
    (frames w) (nextFrame w) (nextWrapper w) (consoleLog w) (consoleWarn w)
    (deliveries w).

(** [console.log(label, value)] and [console.warn(message, observer)]. *)
Definition writeLog (label : string) (v : value) (w : world) : world :=
  World (sources w) (dedupes w) (groups w) (debounces w)
    (frames w) (nextFrame w) (nextWrapper w) ((consoleLog w ++ [(label, v)])%list)
    (consoleWarn w) (deliveries w).
Definition writeWarn (who : ident) (w : world) : world :=
  World (sources w) (dedupes w) (groups w) (debounces w)
    (frames w) (nextFrame w) (nextWrapper w) (consoleLog w)
    ((consoleWarn w ++ [who])%list) (deliveries w).

(** A subscriber notes the value it was handed. *)
Definition deliver (name : nat) (v : value) (w : world) : world :=
  World (sources w) (dedupes w) (groups w) (debounces w)
    (frames w) (nextFrame w) (nextWrapper w) (consoleLog w) (consoleWarn w)
    ((deliveries w ++ [(name, v)])%list).

(** The values a subscriber has received so far, oldest first. *)
Definition receivedBy (name : nat) (w : world) : list value :=
  map snd (List.filter (fun d => Nat.eqb (fst d) name) (deliveries w)).

(** ** Computations

    A computation runs in a world and ends normally or by throwing, in the
    world it has reached; [None] is an interpreter that ran out of fuel. *)
Definition M (A : Type) : Type := world -> option (completion A * world).

Definition ret {A} (a : A) : M A := fun w => Some (Normal a, w).
Definition throw {A} (e : error) : M A := fun w => Some (Throw e, w).
Definition exhausted {A} : M A := fun _ => None.
Definition bind {A B} (m : M A) (k : A -> M B) : M B :=
  fun w =>
    match m w with
    | None => None
    | Some (Normal a, w') => k a w'
    | Some (Throw e, w') => Some (Throw e, w')
    end.
Definition gets {A} (f : world -> A) : M A := fun w => Some (Normal (f w), w).
Definition modify (f : world -> world) : M unit := fun w => Some (Normal tt, f w).
Definition liftCompletion {A} (c : completion A) : M A :=
  match c with
  | Normal a => ret a
  | Throw e => throw e
  end.

Declare Scope js_scope.
Delimit Scope js_scope with js.
Notation "x <- c ;; k" := (bind c (fun x => k))
  (at level 100, c at next level, right associativity) : js_scope.
Notation "c ;; k" := (bind c (fun _ => k))
  (at level 100, right associativity) : js_scope.
Local Open Scope js_scope.

(** ** The operations handed to [_nextOperator]

    Each takes the received value and the channel to dispatch on. *)

(** [mapTo]: [(_, dispatch) => { dispatch(value); }] *)
Definition mapToOperation (constant : value) (_ : value)
    (dispatch : value -> M unit) : M unit :=
  dispatch constant.

(** [inverted]: the [switch] over 0, 1, false and true; [case] compares with
    strict equality. *)
Definition invertedOperation (v : value) (dispatch : value -> M unit) : M unit :=
  match v with
  | VNum 0 => dispatch (VNum 1)
  | VNum 1 => dispatch (VNum 0)
  | VBool false => dispatch (VBool true)
  | VBool true => dispatch (VBool false)
  | _ => ret tt
  end.

(** [_map]: [nextChannel(transform(value))] *)
Definition mapOperation (transform : value -> completion value) (v : value)
    (nextChannel : value -> M unit) : M unit :=
  result <- liftCompletion (transform v) ;;
  nextChannel result.

(** [_filter] *)
Definition filterOperation (predicate : value -> bool) (v : value)
    (nextChannel : value -> M unit) : M unit :=
  if predicate v then nextChannel v else ret tt.

(** [dedupe] *)
Definition dedupeOperation (cell : loc) (areEqual : value -> value -> bool)
    (v : value) (dispatch : value -> M unit) : M unit :=
  st <- gets (dedupeAt cell) ;;
  if dispatched st && areEqual v (dedupeLastValue st)
  then ret tt
  else
    modify (fun w => setDedupe cell (DedupeState (dispatched (dedupeAt cell w)) v) w) ;;
    modify (fun w => setDedupe cell (DedupeState true (dedupeLastValue (dedupeAt cell w))) w) ;;
    dispatch v.

(** [log]: [value] is reassigned when there is a plucker, and it is that
    variable which is logged and handed to [nextChannel]. *)
Definition logOperation (label : string)
    (plucker : option (value -> completion value)) (v : value)
    (nextChannel : value -> M unit) : M unit :=
  v <- match plucker with
       | Some plucker => liftCompletion (plucker v)
       | None => ret v
       end ;;
  modify (writeLog label v) ;;
  nextChannel v.

(** The callback joins the queue of the next tick under a fresh handle. *)
Definition enqueueFrame (callback : frameCallback) (w : world) : world :=
  World (sources w) (dedupes w) (groups w) (debounces w)
    ((frames w ++ [(nextFrame w, callback)])%list) (Pos.succ (nextFrame w))
    (nextWrapper w) (consoleLog w) (consoleWarn w) (deliveries w).

(** Modelled from the spec: the host's frame-scheduling primitive
    ([requestTick(callback) -> token]): it queues the callback for the next
    tick and returns a handle, which is a positive number. *)
Definition requestAnimationFrame (callback : frameCallback) : M Z :=
  fun w => Some (Normal (Z.pos (nextFrame w)), enqueueFrame callback w).

(** [!queuedFrameID]: [undefined] and 0 are falsy. *)
Definition falsyNumber (n : option Z) : bool :=
  match n with
  | None => true
  | Some z => Z.eqb z 0
  end.

(** [_debounce] *)
Definition debounceOperation (cell : loc) (v : value) (nextChannel : nextFn) : M unit :=
  modify (fun w => setDebounce cell (DebounceState (queuedFrameID (debounceAt cell w)) v) w) ;;
  st <- gets (debounceAt cell) ;;
  if falsyNumber (queuedFrameID st)
  then
    id <- requestAnimationFrame (DebounceFrame cell nextChannel) ;;
    modify (fun w => setDebounce cell (DebounceState (Some id) (debounceLastValue (debounceAt cell w))) w)
  else ret tt.

(** [operation(value, observer.next)]: [down] is [observer.next] as a
    closure, [dispatch] is what calling it does. *)
Definition runOperation (op : operation) (v : value) (down : nextFn)
    (dispatch : value -> M unit) : M unit :=
  match op with
  | MapToOperation constant => mapToOperation constant v dispatch
  | InvertedOperation => invertedOperation v dispatch
  | MapOperation transform => mapOperation transform v dispatch
  | FilterOperation predicate => filterOperation predicate v dispatch
  | DedupeOperation cell areEqual => dedupeOperation cell areEqual v dispatch
  | LogOperation label plucker => logOperation label plucker v dispatch
  | DebounceOperation cell => debounceOperation cell v down
  end.

(** ** Subscribing, dispatching, unsubscribing *)

Inductive setRef : Type :=
| SourceSet (cell : loc)
| GroupSet (cell : loc).

Definition readSet (r : setRef) (w : world) : observerSet :=
  match r with
  | SourceSet cell => sourceObservers (sourceAt cell w)
  | GroupSet cell => observers (groupAt cell w)
  end.

(** Modelled from the spec: [subscribe] of the observable primitive accepts
    an observer or a bare [next] function, which it wraps in a new observer
    object. *)
Definition wrapWithObserver (observerOrNext : nextFn + observerObj) : M observerObj :=
  match observerOrNext with
  | inr o => ret o
  | inl f =>
      fun w =>
        Some (Normal (Observer (Wrapped (nextWrapper w)) f),
              World (sources w) (dedupes w) (groups w) (debounces w)
                (frames w) (nextFrame w) (S (nextWrapper w))
                (consoleLog w) (consoleWarn w) (deliveries w))
  end.

Definition sourceConnect (cell : loc) (o : observerObj) (w : world) : world :=
  let s := sourceAt cell w in
  setSource cell (SourceState (setAdd o (sourceObservers s)) (S (connects s)) (disconnects s)) w.

Definition sourceDisconnect (cell : loc) (who : ident) (w : world) : world :=
  let s := sourceAt cell w in
  setSource cell (SourceState (setDelete who (sourceObservers s)) (connects s) (S (disconnects s))) w.

Fixpoint callNext (fuel : nat) (f : nextFn) (v : value) {struct fuel} : M unit :=
  match fuel with
  | O => exhausted
  | S fuel' =>
      match f with
      | SinkNext name react =>
          modify (deliver name v) ;;
          match react with
          | Quiet => ret tt
          | SubscribeAt count target who newcomer =>
              received <- gets (receivedBy name) ;;
              if Nat.eqb (length received) count
              then _ <- subscribe fuel' target (inr (Observer who newcomer)) ;; ret tt
              else ret tt
          | FeedBack cell => forEachObserver fuel' (SourceSet cell) 0 v
          end
      | OperatorNext op down =>
          (* (value) => operation(value, observer.next) *)
          runOperation op v down (callNext fuel' down)
      | RememberNext cell =>
          (* the function _remember subscribes to its parent with *)
          forEachObserver fuel' (GroupSet cell) 0 v ;;
          modify (fun w =>
            let g := groupAt cell w in
            setGroup cell (RememberState (observers g) (upstream g) (lastValue g) true) w) ;;
          modify (fun w =>
            let g := groupAt cell w in
            setGroup cell (RememberState (observers g) (upstream g) v (hasStarted g)) w)
      end
  end

(** [set.forEach(observer => observer.next(value))], from entry [index] on. *)
with forEachObserver (fuel : nat) (r : setRef) (index : nat) (v : value)
    {struct fuel} : M unit :=
  match fuel with
  | O => exhausted
  | S fuel' =>
      entries <- gets (readSet r) ;;
      match nth_error entries index with
      | None => ret tt
      | Some None => forEachObserver fuel' r (S index) v
      | Some (Some o) =>
          callNext fuel' (next o) v ;;
          forEachObserver fuel' r (S index) v
      end
  end

(** [stream.subscribe(observerOrNext)]: wrap the observer, run the connect
    function of the stream, hand back what it returned. *)
with subscribe (fuel : nat) (s : stream) (observerOrNext : nextFn + observerObj)
    {struct fuel} : M subscription :=
  match fuel with
  | O => exhausted
  | S fuel' =>
      observer <- wrapWithObserver observerOrNext ;;
      match s with
      | Source _ cell =>
          modify (sourceConnect cell observer) ;;
          ret (Some (SourceDisconnect cell (identity observer)))
      | NextOperator _ op this =>
          (* the connect function of _nextOperator *)
          sub <- subscribe fuel' this (inl (OperatorNext op (next observer))) ;;
          ret (Some (UnsubscribeOf sub))
      | Remember cell this =>
          (* the connect function of _remember *)
          g <- gets (groupAt cell) ;;
          if setHas (identity observer) (observers g)
          then
            modify (writeWarn (identity observer)) ;;
            ret None
          else
            (if Nat.eqb (setSize (observers g)) 0
             then
               sub <- subscribe fuel' this (inl (RememberNext cell)) ;;
               modify (fun w =>
                 let g := groupAt cell w in
                 setGroup cell (RememberState (observers g) (Some sub) (lastValue g) (hasStarted g)) w)
             else ret tt) ;;
            modify (fun w =>
              let g := groupAt cell w in
              setGroup cell (RememberState (setAdd observer (observers g)) (upstream g) (lastValue g) (hasStarted g)) w) ;;
            g <- gets (groupAt cell) ;;
            (if hasStarted g
             then callNext fuel' (next observer) (lastValue g)
             else ret tt) ;;
            ret (Some (RememberDisconnect cell (identity observer)))
      end
  end.

(** [subscription.unsubscribe()]: run what connect returned, if anything. *)
Fixpoint unsubscribe (fuel : nat) (sub : subscription) {struct fuel} : M unit :=
  match fuel with
  | O => exhausted
  | S fuel' =>
      match sub with
      | None => ret tt
      | Some (SourceDisconnect cell who) => modify (sourceDisconnect cell who)
      | Some (UnsubscribeOf inner) => unsubscribe fuel' inner
      | Some (RememberDisconnect cell who) =>
          (* the function the connect of _remember returns *)
          modify (fun w =>
            let g := groupAt cell w in
            setGroup cell (RememberState (setDelete who (observers g)) (upstream g) (lastValue g) (hasStarted g)) w) ;;
          g <- gets (groupAt cell) ;;
          if Nat.eqb (setSize (observers g)) 0
          then
            match upstream g with
            | Some sub => unsubscribe fuel' sub
            | None => throw (TypeError "unsubscribe" VNull)
            end ;;
            modify (fun w =>
              let g := groupAt cell w in
              setGroup cell (RememberState (observers g) None (lastValue g) (hasStarted g)) w)
          else ret tt
      end
  end.

(** The root producer hands a value to its observers. *)
Definition emit (fuel : nat) (cell : loc) (v : value) : M unit :=
  forEachObserver fuel (SourceSet cell) 0 v.




(** ** The operators *)

Definition constructorOf (s : stream) : constructor :=
  match s with
  | Source ctor _ => ctor
  | NextOperator ctor _ _ => ctor
  | Remember _ _ => MotionObservableClass
  end.

(** [new (this.constructor)(observer => ...)] *)
Definition _nextOperator (operation : operation) (this : stream) : stream :=
  NextOperator (constructorOf this) operation this.

(** [new MotionObservable(observer => ...)]; [cell] holds the variables of
    this call. *)
Definition _remember (cell : loc) (this : stream) : stream :=
  Remember cell this.

Definition mapTo (constant : value) (this : stream) : stream :=
  _nextOperator (MapToOperation constant) this.

Definition inverted (this : stream) : stream :=
  _nextOperator InvertedOperation this.

Definition _map (transform : value -> completion value) (this : stream) : stream :=
  _nextOperator (MapOperation transform) this.

Definition _filter (predicate : value -> bool) (this : stream) : stream :=
  _nextOperator (FilterOperation predicate) this.

Definition pluck (inherited : value -> string -> value) (path : string)
    (this : stream) : stream :=
  _map (createPlucker inherited path) this.

(** [dedupe(areEqual = deepEqual)]; [cell] holds [dispatched] and
    [lastValue], [group] the variables of the [_remember] call. *)
Definition dedupe (cell group : loc) (areEqual : option (value -> value -> bool))
    (this : stream) : stream :=
  _remember group
    (_nextOperator (DedupeOperation cell (default deepEqual areEqual)) this).

(** [log(label = '', pluckPath = '')] *)
Definition log (inherited : value -> string -> value)
    (label pluckPath : option string) (this : stream) : stream :=
  let label := default "" label in
  let pluckPath := default "" pluckPath in
  let plucker :=
    if truthyString pluckPath
    then Some (createPlucker inherited pluckPath)
    else None in
  _nextOperator (LogOperation label plucker) this.


(** ** Running a pipeline *)

(** A subscriber at the end of a chain, an observer object of its own. *)
Definition subscriber (name : nat) (react : reaction) : observerObj :=
  Observer (Named name) (SinkNext name react).

(** How a computation ended, whatever world it ended in. *)
Definition outcomeOf {A} (r : option (completion A * world)) : option (completion A) :=
  match r with
  | Some (c, _) => Some c
  | None => None
  end.

(** How a computation started in a fresh world ends. *)
Definition observe {A} (m : M A) : option (completion A) :=
  outcomeOf (m emptyWorld).

(** [try { m } catch (e) { }], keeping how [m] ended. *)
Definition attempt {A} (m : M A) : M (completion A) :=
  fun w =>
    match m w with
    | Some (c, w') => Some (Normal c, w')
    | None => None
    end.

Fixpoint emitAll (fuel : nat) (cell : loc) (vs : list value) : M unit :=
  match vs with
  | [] => ret tt
  | v :: rest => emit fuel cell v ;; emitAll fuel cell rest
  end.

(** The number of observers a root producer currently holds. *)
Definition listeners (cell : loc) (w : world) : nat :=
  setSize (sourceObservers (sourceAt cell w)).

(** ** Scenarios: log *)

Definition banana : value :=
  VObj [("item", VObj [("type", VStr "fruit"); ("name", VStr "banana")]);
        ("count", VNum 2)].

(** [log('Name:', 'item.name')] receives the value of its documentation. *)
Definition logScenario (inherited : value -> string -> value) (ctor : constructor)
    (fuel : nat) : M (list value * list (string * value)) :=
  _ <- subscribe fuel
         (log inherited (Some "Name:") (Some "item.name") (Source ctor 0))
         (inr (subscriber 1 Quiet)) ;;
  emit fuel 0 banana ;;
  received <- gets (receivedBy 1) ;;
  logged <- gets consoleLog ;;
  ret (received, logged).

(** ** Scenarios: remember *)

(** [_remember], after A subscribed and upstream dispatched: B subscribes, A
    then B unsubscribe.  Observed: the deliveries made before B's
    [subscribe] call and those made when it returns, the upstream teardowns
    after A left and after B left, and the observers upstream holds at the
    end. *)
Definition rememberTail (remembered : stream) (subA : subscription) (fuel : nat)
    : M (list (nat * value) * list (nat * value) * nat * nat * nat) :=
  before <- gets deliveries ;;
  subB <- subscribe fuel remembered (inr (subscriber 2 Quiet)) ;;
  after <- gets deliveries ;;
  unsubscribe fuel subA ;;
  afterA <- gets (fun w => disconnects (sourceAt 0 w)) ;;
  unsubscribe fuel subB ;;
  afterB <- gets (fun w => disconnects (sourceAt 0 w)) ;;
  live <- gets (listeners 0) ;;
  ret (before, after, afterA, afterB, live).

(** A (subscriber 1) subscribes to a remembered stream, upstream dispatches
    [vs], then B (subscriber 2) subscribes and both leave. *)
Definition rememberScenario (ctor : constructor) (vs : list value) (fuel : nat)
    : M (list (nat * value) * list (nat * value) * nat * nat * nat) :=
  let remembered := _remember 0 (Source ctor 0) in
  subA <- subscribe fuel remembered (inr (subscriber 1 Quiet)) ;;
  emitAll fuel 0 vs ;;
  rememberTail remembered subA fuel.



(** The world of a remembered stream (group 0, over the root producer 0)
    with subscriber 1 as its only observer: upstream holds the observer
    that [_remember] subscribed, the group has its started flag and cached
    value, and [ds] has been delivered. *)
Definition rememberWorld (started : bool) (cached : value)
    (ds : list (nat * value)) : world :=
  World {[0%nat := SourceState [Some (Observer (Wrapped 0) (RememberNext 0))] 1 0]}
    ∅
    {[0%nat := RememberState [Some (subscriber 1 Quiet)]
                 (Some (Some (SourceDisconnect 0 (Wrapped 0)))) cached started]}
    ∅ [] 1%positive 1 [] [] ds.

(** A subscriber (1) that subscribes a newcomer (2) to the remembered
    stream when it receives its [count]-th value. *)
Definition recruiter (ctor : constructor) (count : nat) : observerObj :=
  subscriber 1
    (SubscribeAt count (_remember 0 (Source ctor 0)) (Named 2) (SinkNext 2 Quiet)).

(** On a remembered stream, subscriber 1 subscribes the newcomer 2 to the
    same stream, from within its [next], when it receives its [count]-th
    value.  Upstream dispatches [vs].  Observed: every delivery, in order,
    and the cached value at the end. *)
Definition fanOutScenario (ctor : constructor) (count : nat)
    (vs : list value) (fuel : nat) : M (list (nat * value) * value) :=
  let remembered := _remember 0 (Source ctor 0) in
  _ <- subscribe fuel remembered (inr (recruiter ctor count)) ;;
  emitAll fuel 0 vs ;;
  all <- gets deliveries ;;
  g <- gets (groupAt 0) ;;
  ret (all, lastValue g).

(** The world of [fanOutScenario] while the recruiter is the only observer
    of the group and has received [got]. *)
Definition fanOutWorld (ctor : constructor) (count : nat) (started : bool)
    (cached : value) (got : list value) : world :=
  World {[0%nat := SourceState [Some (Observer (Wrapped 0) (RememberNext 0))] 1 0]}
    ∅
    {[0%nat := RememberState [Some (recruiter ctor count)]
                 (Some (Some (SourceDisconnect 0 (Wrapped 0)))) cached started]}
    ∅ [] 1%positive 1 [] [] (map (pair 1%nat) got).

(** ** Scenarios: dedupe *)

(** [dedupe(areEqual)] receives a sequence of values. *)
Definition dedupeScenario (ctor : constructor)
    (areEqual : option (value -> value -> bool)) (react : reaction)
    (vs : list value) (fuel : nat) : M (list value) :=
  _ <- subscribe fuel (dedupe 0 0 areEqual (Source ctor 0))
         (inr (subscriber 1 react)) ;;
  emitAll fuel 0 vs ;;
  gets (receivedBy 1).

(** What the specification asks of dedupe: a value is dropped when a
    previous value was dispatched and the predicate reports it equal to the
    value received. *)
Fixpoint deduped (areEqual : value -> value -> bool) (previous : option value)
    (vs : list value) : list value :=
  match vs with
  | [] => []
  | v :: rest =>
      match previous with
      | Some last =>
          if areEqual v last
          then deduped areEqual previous rest
          else v :: deduped areEqual (Some v) rest
      | None => v :: deduped areEqual (Some v) rest
      end
  end.

(** The world of [dedupe(areEqual)] (cell 0, group 0, over the root
    producer 0) with subscriber 1 as its only observer, when [previous] is
    the value last dispatched, if any, and the subscriber has received
    [got]. *)
Definition dedupeWorld (areEqual : value -> value -> bool)
    (previous : option value) (got : list value) : world :=
  World
    {[0%nat := SourceState
                 [Some (Observer (Wrapped 1)
                          (OperatorNext (DedupeOperation 0 areEqual) (RememberNext 0)))]
                 1 0]}
    match previous with
    | Some last => {[0%nat := DedupeState true last]}
    | None => ∅
    end
    {[0%nat := RememberState [Some (subscriber 1 Quiet)]
                 (Some (Some (UnsubscribeOf (Some (SourceDisconnect 0 (Wrapped 1))))))
                 (default VUndefined previous)
                 (match previous with Some _ => true | None => false end)]}
    ∅ [] 1%positive 2 [] [] (map (pair 1%nat) got).

(** ** Scenarios: inverted *)

(** [inverted] receives a sequence of values. *)
Definition invertedScenario (ctor : constructor) (vs : list value) (fuel : nat)
    : M (list value) :=
  _ <- subscribe fuel (inverted (Source ctor 0)) (inr (subscriber 1 Quiet)) ;;
  emitAll fuel 0 vs ;;
  gets (receivedBy 1).

(** What the specification asks of inverted: 0 and 1 are exchanged, [false]
    and [true] are exchanged, and no other value has an image. *)
Definition toggle (v : value) : option value :=
  match v with
  | VNum 0 => Some (VNum 1)
  | VNum 1 => Some (VNum 0)
  | VBool b => Some (VBool (negb b))
  | _ => None
  end.

(** The world of [inverted()] over the root producer 0 with subscriber 1,
    which has received [got]. *)
Definition invertedWorld (got : list value) : world :=
  World
    {[0%nat := SourceState
                 [Some (Observer (Wrapped 0)
                          (OperatorNext InvertedOperation (SinkNext 1 Quiet)))]
                 1 0]}
    ∅ ∅ ∅ [] 1%positive 1 [] [] (map (pair 1%nat) got).

(** ** Scenarios: pluck *)

(** [pluck('a.b')] receives [{a: {b: 7}}], then [{a: null}].  Observed: how
    each dispatch ended for the caller and what the subscriber had received
    after it. *)
Definition pluckScenario (inherited : value -> string -> value)
    (ctor : constructor) (fuel : nat)
    : M (completion unit * list value * completion unit * list value) :=
  _ <- subscribe fuel (pluck inherited "a.b" (Source ctor 0))
         (inr (subscriber 1 Quiet)) ;;
  first <- attempt (emit fuel 0 (VObj [("a", VObj [("b", VNum 7)])])) ;;
  received <- gets (receivedBy 1) ;;
  second <- attempt (emit fuel 0 (VObj [("a", VNull)])) ;;
  received' <- gets (receivedBy 1) ;;
  ret (first, received, second, received').

Definition raises {A} (c : completion A) : Prop := exists e, c = Throw e.

(** Walking the first [k] segments ends on [null] or [undefined] while a
    segment is still to be read; [k = 0] is the received value itself. *)
Definition nullishAfter (inherited : value -> string -> value)
    (pathSegments : list string) (v : value) (k : nat) : Prop :=
  (k < length pathSegments)%nat /\
  exists r, walk inherited (take k pathSegments) v = Normal r /\ isNullish r = true.

(** An environment without inherited properties. *)
Definition noInherited : value -> string -> value := fun _ _ => VUndefined.

(** ** Scenarios: unsubscribing *)



(** ** Scenarios: debounce against the clock *)







(** * Further operators and pipelines *)

(** ** _read *)

(** [_read]: subscribes an observer that assigns every value it receives to
    [result], unsubscribes at once and returns [result].  The observer is
    the [next] of subscriber [name], handed over as a bare function;
    [result] is the last value it has noted since the call began, and
    [undefined] when there is none. *)
Definition _read (fuel : nat) (name : nat) (this : stream) : M value :=
  before <- gets (receivedBy name) ;;
  sub <- subscribe fuel this (inl (SinkNext name Quiet)) ;;
  unsubscribe fuel sub ;;
  after <- gets (receivedBy name) ;;
  ret (List.last (drop (length before) after) VUndefined).

(** ** merge *)






(** ** Chains of stateless operators *)

(** The observer that a chain of operators subscribes to its root: the
    first operator of the chain receives first. *)
Fixpoint chainNext (ops : list operation) (sink : nextFn) : nextFn :=
  match ops with
  | [] => sink
  | op :: rest => OperatorNext op (chainNext rest sink)
  end.

Definition stateless (op : operation) : bool :=
  match op with
  | MapToOperation _ | InvertedOperation | MapOperation _ | FilterOperation _ => true
  | _ => false
  end.

(** What a stateless operation dispatches for a received value: a value,
    nothing, or an exception. *)
Definition handsOn (op : operation) (v : value) : completion (option value) :=
  match op with
  | MapToOperation constant => Normal (Some constant)
  | InvertedOperation => Normal (toggle v)
  | MapOperation transform =>
      match transform v with
      | Normal result => Normal (Some result)
      | Throw e => Throw e
      end
  | FilterOperation predicate => Normal (if predicate v then Some v else None)
  | _ => Normal None
  end.

Fixpoint through (ops : list operation) (v : value) : completion (option value) :=
  match ops with
  | [] => Normal (Some v)
  | op :: rest =>
      match handsOn op v with
      | Normal (Some result) => through rest result
      | Normal None => Normal None
      | Throw e => Throw e
      end
  end.

(** What a subscriber at the end of the chain has received, and how the
    dispatching ended, once upstream has dispatched [vs] one after the
    other: an exception ends it. *)
Fixpoint runThrough (ops : list operation) (got : list value) (vs : list value)
    : completion unit * list value :=
  match vs with
  | [] => (Normal tt, got)
  | v :: rest =>
      match through ops v with
      | Normal (Some result) => runThrough ops (got ++ [result])%list rest
      | Normal None => runThrough ops got rest
      | Throw e => (Throw e, got)
      end
  end.

(** The world of a chain of operators over the root producer 0 with
    subscriber 1 at its end, which has received [got]. *)
Definition chainWorld (ops : list operation) (got : list value) : world :=
  World
    {[0%nat := SourceState
                 [Some (Observer (Wrapped (pred (length ops)))
                          (chainNext ops (SinkNext 1 Quiet)))]
                 1 0]}
    ∅ ∅ ∅ [] 1%positive (length ops) [] [] (map (pair 1%nat) got).

(** Subscriber 1 subscribes to a stream over the root producer 0, which
    then dispatches [vs]. *)
Definition pipelineScenario (s : stream) (vs : list value) (fuel : nat)
    : M (list value) :=
  _ <- subscribe fuel s (inr (subscriber 1 Quiet)) ;;
  emitAll fuel 0 vs ;;
  gets (receivedBy 1).

(** What a subscriber of [_map(transform)] is to receive when upstream
    dispatches [vs]: the results in order, up to the first exception. *)
Fixpoint mapUntilThrow (transform : value -> completion value) (vs : list value)
    : completion (list value) :=
  match vs with
  | [] => Normal []
  | v :: rest =>
      match transform v with
      | Normal result =>
          match mapUntilThrow transform rest with
          | Normal results => Normal (result :: results)
          | Throw e => Throw e
          end
      | Throw e => Throw e
      end
  end.

(** [value => second(first(value))] for transforms that may throw. *)
Definition andThen (first second : value -> completion value) (v : value)
    : completion value :=
  match first v with
  | Normal result => second result
  | Throw e => Throw e
  end.

(** The values [inverted] has an image for. *)
Definition toggles (v : value) : bool :=
  match toggle v with
  | Some _ => true
  | None => false
  end.

(** ** Scenarios: log without a path *)

(** Subscriber 1 subscribes to [log(label)] over the root producer 0, which
    dispatches [vs].  Observed: what the subscriber has received and what
    was logged. *)
Definition plainLogScenario (inherited : value -> string -> value)
    (ctor : constructor) (label : option string) (vs : list value) (fuel : nat)
    : M (list value * list (string * value)) :=
  _ <- subscribe fuel (log inherited label None (Source ctor 0))
         (inr (subscriber 1 Quiet)) ;;
  emitAll fuel 0 vs ;;
  received <- gets (receivedBy 1) ;;
  logged <- gets consoleLog ;;
  ret (received, logged).

(** The world of [plainLogScenario] when the subscriber has received
    [got]. *)
Definition logWorld (label : string) (got : list value) : world :=
  World
    {[0%nat := SourceState
                 [Some (Observer (Wrapped 0)
                          (OperatorNext (LogOperation label None) (SinkNext 1 Quiet)))]
                 1 0]}
    ∅ ∅ ∅ [] 1%positive 1 (map (pair label) got) [] (map (pair 1%nat) got).

(** ** Scenarios: one observer subscribed twice *)

(** [rememberWorld] with the warnings logged so far. *)
Definition soloGroupWorld (warned : list ident) (started : bool) (cached : value)
    (ds : list (nat * value)) : world :=
  World {[0%nat := SourceState [Some (Observer (Wrapped 0) (RememberNext 0))] 1 0]}
    ∅
    {[0%nat := RememberState [Some (subscriber 1 Quiet)]
                 (Some (Some (SourceDisconnect 0 (Wrapped 0)))) cached started]}
    ∅ [] 1%positive 1 [] warned ds.

(** After the second [subscribe] call of the same observer and the values
    that followed: the second subscription is given up, then the first.
    Observed: after the second was given up, the observers upstream holds,
    the size of the group, the warnings and the deliveries; after the first
    was given up, the upstream teardowns and the observers upstream
    holds. *)
Definition duplicateTail (first second : subscription) (fuel : nat)
    : M (subscription * nat * nat * list ident * list (nat * value) * nat * nat) :=
  unsubscribe fuel second ;;
  live <- gets (listeners 0) ;;
  members <- gets (fun w => setSize (observers (groupAt 0 w))) ;;
  warned <- gets consoleWarn ;;
  all <- gets deliveries ;;
  unsubscribe fuel first ;;
  torn <- gets (fun w => disconnects (sourceAt 0 w)) ;;
  live' <- gets (listeners 0) ;;
  ret (second, live, members, warned, all, torn, live').

(** The observer object of subscriber 1 is subscribed to a remembered
    stream, and once more after upstream has dispatched [vs]; upstream then
    dispatches [vs']. *)
Definition duplicateScenario (ctor : constructor) (vs vs' : list value) (fuel : nat)
    : M (subscription * nat * nat * list ident * list (nat * value) * nat * nat) :=
  let remembered := _remember 0 (Source ctor 0) in
  first <- subscribe fuel remembered (inr (subscriber 1 Quiet)) ;;
  emitAll fuel 0 vs ;;
  second <- subscribe fuel remembered (inr (subscriber 1 Quiet)) ;;
  emitAll fuel 0 vs' ;;
  duplicateTail first second fuel.

(** ** Scenarios: sharing an operator *)

(** Subscribers 1 and 2 subscribe to the same stream over the root producer
    0, which dispatches [vs].  Observed: the upstream subscribe calls, what
    was logged, and the deliveries. *)
Definition sharingScenario (s : stream) (vs : list value) (fuel : nat)
    : M (nat * list (string * value) * list (nat * value)) :=
  _ <- subscribe fuel s (inr (subscriber 1 Quiet)) ;;
  _ <- subscribe fuel s (inr (subscriber 2 Quiet)) ;;
  emitAll fuel 0 vs ;;
  started <- gets (fun w => connects (sourceAt 0 w)) ;;
  logged <- gets consoleLog ;;
  all <- gets deliveries ;;
  ret (started, logged, all).

(** The world of [sharingScenario] for [log(label)]: each subscriber has its
    own observer upstream. *)
Definition coldLogWorld (label : string) (logged : list (string * value))
    (ds : list (nat * value)) : world :=
  World
    {[0%nat := SourceState
                 [Some (Observer (Wrapped 0)
                          (OperatorNext (LogOperation label None) (SinkNext 1 Quiet)));
                  Some (Observer (Wrapped 1)
                          (OperatorNext (LogOperation label None) (SinkNext 2 Quiet)))]
                 2 0]}
    ∅ ∅ ∅ [] 1%positive 2 logged [] ds.

(** The world of [sharingScenario] for [log(label)._remember()]: the group
    has one observer upstream. *)
Definition sharedLogWorld (label : string) (started : bool) (cached : value)
    (logged : list (string * value)) (ds : list (nat * value)) : world :=
  World
    {[0%nat := SourceState
                 [Some (Observer (Wrapped 1)
                          (OperatorNext (LogOperation label None) (RememberNext 0)))]
                 1 0]}
    ∅
    {[0%nat := RememberState [Some (subscriber 1 Quiet); Some (subscriber 2 Quiet)]
                 (Some (Some (UnsubscribeOf (Some (SourceDisconnect 0 (Wrapped 1))))))
                 cached started]}
    ∅ [] 1%positive 2 logged [] ds.

(** Each value once to subscriber 1, then to subscriber 2. *)
Definition toBoth (vs : list value) : list (nat * value) :=
  flat_map (fun v => [(1%nat, v); (2%nat, v)]) vs.

(** ** Scenarios: an observer that throws during the fan-out *)

(** Upstream dispatches [vs] one after the other, each dispatch in a [try]
    of its own.  Observed: how each dispatch ended. *)
Fixpoint dispatchEach (fuel : nat) (cell : loc) (vs : list value)
    : M (list (completion unit)) :=
  match vs with
  | [] => ret []
  | v :: rest =>
      outcome <- attempt (emit fuel cell v) ;;
      outcomes <- dispatchEach fuel cell rest ;;
      ret (outcome :: outcomes)
  end.

(** On a remembered stream over the root producer 0, subscriber 1
    subscribes directly, subscriber 2 behind [_map(transform)], subscriber 3
    directly.  Upstream dispatches [vs], each value under a [try] of the
    caller; then subscriber 4 subscribes.  Observed: how each dispatch
    ended, the deliveries made by then, the started flag and the cached
    value of the group, and the deliveries made when the [subscribe] call
    of subscriber 4 returns. *)
Definition throwingObserverScenario (ctor : constructor)
    (transform : value -> completion value) (vs : list value) (fuel : nat)
    : M (list (completion unit) * list (nat * value) * bool * value
         * list (nat * value)) :=
  let remembered := _remember 0 (Source ctor 0) in
  _ <- subscribe fuel remembered (inr (subscriber 1 Quiet)) ;;
  _ <- subscribe fuel (_map transform remembered) (inr (subscriber 2 Quiet)) ;;
  _ <- subscribe fuel remembered (inr (subscriber 3 Quiet)) ;;
  outcomes <- dispatchEach fuel 0 vs ;;
  before <- gets deliveries ;;
  g <- gets (groupAt 0) ;;
  _ <- subscribe fuel remembered (inr (subscriber 4 Quiet)) ;;
  after <- gets deliveries ;;
  ret (outcomes, before, hasStarted g, lastValue g, after).

(** The world of [throwingObserverScenario] before subscriber 4 comes. *)
Definition throwingObserverWorld (transform : value -> completion value)
    (started : bool) (cached : value) (ds : list (nat * value)) : world :=
  World {[0%nat := SourceState [Some (Observer (Wrapped 0) (RememberNext 0))] 1 0]}
    ∅
    {[0%nat := RememberState
                 [Some (subscriber 1 Quiet);
                  Some (Observer (Wrapped 1)
                          (OperatorNext (MapOperation transform) (SinkNext 2 Quiet)));
                  Some (subscriber 3 Quiet)]
                 (Some (Some (SourceDisconnect 0 (Wrapped 0)))) cached started]}
    ∅ [] 1%positive 2 [] [] ds.

(** Whether [transform] returns for [v], how the dispatch of [v] ends for
    its caller, and the deliveries it makes. *)
Definition passes (transform : value -> completion value) (v : value) : bool :=
  match transform v with
  | Normal _ => true
  | Throw _ => false
  end.

Definition endsWith (transform : value -> completion value) (v : value)
    : completion unit :=
  match transform v with
  | Normal _ => Normal tt
  | Throw e => Throw e
  end.

Definition fanOutOf (transform : value -> completion value) (v : value)
    : list (nat * value) :=
  match transform v with
  | Normal result => [(1%nat, v); (2%nat, result); (3%nat, v)]
  | Throw _ => [(1%nat, v)]
  end.

(** ** Scenarios: _read *)

(** Subscriber 1 subscribes to a remembered stream, upstream dispatches
    [vs], and the stream is read (the reader is subscriber 2); for
    [leaveFirst], subscriber 1 has left before the reading.  Observed: the
    value read, then the upstream subscribe calls and teardowns, the size
    of the group, and what subscriber 1 has received. *)
Definition readScenario (ctor : constructor) (leaveFirst : bool) (vs : list value)
    (fuel : nat) : M (value * nat * nat * nat * list value) :=
  let remembered := _remember 0 (Source ctor 0) in
  sub <- subscribe fuel remembered (inr (subscriber 1 Quiet)) ;;
  emitAll fuel 0 vs ;;
  (if leaveFirst then unsubscribe fuel sub else ret tt) ;;
  result <- _read fuel 2 remembered ;;
  started <- gets (fun w => connects (sourceAt 0 w)) ;;
  torn <- gets (fun w => disconnects (sourceAt 0 w)) ;;
  members <- gets (fun w => setSize (observers (groupAt 0 w))) ;;
  received <- gets (receivedBy 1) ;;
  ret (result, started, torn, members, received).

(** Upstream dispatches [vs] while nobody is subscribed, and a stream over
    it is read.  Observed: the value read, then the upstream subscribe calls
    and teardowns, and the observers upstream holds. *)
Definition coldReadScenario (s : stream) (vs : list value) (fuel : nat)
    : M (value * nat * nat * nat) :=
  emitAll fuel 0 vs ;;
  result <- _read fuel 2 s ;;
  started <- gets (fun w => connects (sourceAt 0 w)) ;;
  torn <- gets (fun w => disconnects (sourceAt 0 w)) ;;
  live <- gets (listeners 0) ;;
  ret (result, started, torn, live).

(** The world of a remembered stream that subscriber 1 has left after the
    group cached a value: upstream is torn down, the cache is still
    there. *)
Definition desertedGroupWorld (cached : value) (ds : list (nat * value)) : world :=
  World {[0%nat := SourceState [None] 1 1]}
    ∅
    {[0%nat := RememberState [None] None cached true]}
    ∅ [] 1%positive 1 [] [] ds.

(** ** Scenarios: merge *)







(** ** Scenario: two subscribers of one debounced stream *)



(** * Dispatches that throw, schedules and teardowns *)

(** ** Dispatching under [try] *)

(** Subscriber 1 subscribes to a stream over the root producer 0, which
    then dispatches [vs], each value under a [try].  Observed: how each
    dispatch ended, and what the subscriber has received. *)
Definition guardedScenario (s : stream) (vs : list value) (fuel : nat)
    : M (list (completion unit) * list value) :=
  _ <- subscribe fuel s (inr (subscriber 1 Quiet)) ;;
  outcomes <- dispatchEach fuel 0 vs ;;
  got <- gets (receivedBy 1) ;;
  ret (outcomes, got).

(** How the dispatch of [v] into a chain of stateless operators ends, and
    what it delivers. *)
Definition outcomeThrough (ops : list operation) (v : value) : completion unit :=
  match through ops v with
  | Normal _ => Normal tt
  | Throw e => Throw e
  end.

Definition resultThrough (ops : list operation) (v : value) : option value :=
  match through ops v with
  | Normal result => result
  | Throw _ => None
  end.

(** What the subscriber of [_map(transform)] receives for [v]. *)
Definition resultOfTransform (transform : value -> completion value) (v : value)
    : option value :=
  match transform v with
  | Normal result => Some result
  | Throw _ => None
  end.

(** ** Scenarios: the subscribers of one operator stream *)




















(** ** Caches and teardowns *)

(** A computation keeps a relation when the world it ends in, however it
    ends, is related to the world it started in. *)
Definition keeps {A} (R : world -> world -> Prop) (m : M A) : Prop :=
  forall w c w', m w = Some (c, w') -> R w w'.







(** ** Scenario: a remembered stream over a remembered stream *)



(** * Theorems *)

(** ** Computations *)

Lemma outcomeOf_bind {A B} (m : M A) (k : A -> M B) w a w' :
  m w = Some (Normal a, w') -> outcomeOf (bind m k w) = outcomeOf (k a w').
Proof. intros H. unfold bind. by rewrite H. Qed.

Lemma receivedBy_deliver name v w :
  receivedBy name (deliver name v w) = (receivedBy name w ++ [v])%list.
Proof.
  unfold receivedBy, deliver. cbn [deliveries].
  rewrite List.filter_app, map_app. cbn. by rewrite Nat.eqb_refl.
Qed.

(** What a subscriber has received, when every delivery was to it. *)
Lemma receivedBy_pairs name got w :
  deliveries w = map (pair name) got -> receivedBy name w = got.
Proof.
  unfold receivedBy. intros ->.
  induction got as [|v got IH]; [reflexivity|].
  cbn. rewrite Nat.eqb_refl. cbn. by rewrite IH.
Qed.

(** One step of [forEach], and the observer of [_nextOperator]. *)
Lemma forEachObserver_step fuel r index v w :
  forEachObserver (S fuel) r index v w =
  match nth_error (readSet r w) index with
  | None => Some (Normal tt, w)
  | Some None => forEachObserver fuel r (S index) v w
  | Some (Some o) =>
      bind (callNext fuel (next o) v) (fun _ => forEachObserver fuel r (S index) v) w
  end.
Proof.
  cbn [forEachObserver]. unfold bind at 1. unfold gets.
  destruct (nth_error (readSet r w) index) as [[o|]|]; reflexivity.
Qed.

Lemma callNext_operator fuel op down v :
  callNext (S fuel) (OperatorNext op down) v =
  runOperation op v down (callNext fuel down).
Proof. reflexivity. Qed.

(** ** log *)

(** C1 (what the code does).  With a [pluckPath], [log] hands the projected
    value downstream: the subscriber of [log('Name:', 'item.name')] receives
    ["banana"], the value that was logged, and not the object that was
    received; whatever the plucker yields is both logged and dispatched.
    Without a [pluckPath] the received value is logged and handed on as it
    is. *)
Theorem log_pluckPath_dispatches_projection :
  forall inherited ctor fuel label plucker v dispatch w,
    observe (logScenario inherited ctor (3 + fuel)) =
      Some (Normal ([VStr "banana"], [("Name:", VStr "banana")])) /\
    logOperation label (Some plucker) v dispatch w =
      match plucker v with
      | Normal projected => dispatch projected (writeLog label projected w)
      | Throw e => Some (Throw e, w)
      end /\
    logOperation label None v dispatch w = dispatch v (writeLog label v w).
Proof.
  intros. split; [vm_compute; reflexivity|]. split; [|reflexivity].
  unfold logOperation, bind, liftCompletion.
  destruct (plucker v); reflexivity.
Qed.

(** ** Runtime constructors *)

(** C2 (what the code does).  [_nextOperator] builds the new stream with
    the constructor of the stream it is called on, but [_remember], and
    [dedupe] which ends in [_remember], build a plain [MotionObservable]
    whatever the class of the stream. *)
Theorem remember_builds_base_class :
  forall name source cell group areEqual operation,
    let specialised := Source (Subclass name) source in
    constructorOf (_nextOperator operation specialised) = Subclass name /\
    constructorOf (_remember cell specialised) = MotionObservableClass /\
    constructorOf (dedupe cell group areEqual specialised) = MotionObservableClass /\
    constructorOf (_remember cell specialised) <> constructorOf specialised.
Proof. intros. cbn. repeat split; discriminate. Qed.

(** ** remember *)

Lemma remember_subscribed ctor fuel :
  subscribe (4 + fuel) (_remember 0 (Source ctor 0)) (inr (subscriber 1 Quiet))
    emptyWorld =
  Some (Normal (Some (RememberDisconnect 0 (Named 1))),
        rememberWorld false VUndefined []).
Proof. vm_compute. reflexivity. Qed.

(** Upstream dispatches [v]: subscriber 1 receives it and the group caches
    it. *)
Lemma remember_emit fuel started cached ds v :
  emit (4 + fuel) 0 v (rememberWorld started cached ds) =
  Some (Normal tt, rememberWorld true v (ds ++ [(1%nat, v)])%list).
Proof. vm_compute. reflexivity. Qed.

Lemma remember_emitAll fuel vs :
  forall started cached ds v,
    emitAll (4 + fuel) 0 (vs ++ [v])%list (rememberWorld started cached ds) =
    Some (Normal tt,
          rememberWorld true v (ds ++ map (pair 1%nat) (vs ++ [v]))%list).
Proof.
  induction vs as [|u vs IH]; intros started cached ds v.
  - cbn [app emitAll map]. unfold bind. rewrite remember_emit. reflexivity.
  - change ((u :: vs) ++ [v])%list with (u :: (vs ++ [v]))%list.
    cbn [emitAll map]. unfold bind at 1. rewrite remember_emit, IH.
    by rewrite <- app_assoc.
Qed.

Lemma rememberTail_spec ctor fuel v ds :
  outcomeOf (rememberTail (_remember 0 (Source ctor 0))
               (Some (RememberDisconnect 0 (Named 1))) (4 + fuel)
               (rememberWorld true v ds)) =
  Some (Normal (ds, (ds ++ [(2, v)])%list, 0, 1, 0))%nat.
Proof. vm_compute. reflexivity. Qed.


(** C3.  On a remembered stream, A subscribes before any value, upstream
    dispatches 5, then B subscribes: the only delivery so far was 5 to A,
    and when B's [subscribe] call returns B has received 5.  When A
    unsubscribes, upstream is not torn down; when B then unsubscribes it is,
    once, and upstream holds no observer any more.  The same holds after
    any values [history] followed by [v], with [v] replayed to B. *)
Theorem remember_replays_and_tears_down_once :
  forall ctor history v fuel,
    observe (rememberScenario ctor [VNum 5] (4 + fuel)) =
      Some (Normal ([(1, VNum 5)], [(1, VNum 5); (2, VNum 5)], 0, 1, 0))%nat /\
    let dispatched := map (pair 1%nat) (history ++ [v])%list in
    observe (rememberScenario ctor (history ++ [v])%list (4 + fuel)) =
      Some (Normal (dispatched, (dispatched ++ [(2, v)])%list, 0, 1, 0))%nat.
Proof.
  intros ctor history v fuel. split; [vm_compute; reflexivity|].
  intros dispatched. unfold observe, rememberScenario.
  rewrite (outcomeOf_bind _ _ _ _ _ (remember_subscribed ctor fuel)).
  rewrite (outcomeOf_bind _ _ _ _ _
             (remember_emitAll fuel history false VUndefined [] v)).
  apply (rememberTail_spec ctor fuel).
Qed.



Lemma last_cons_default {A} (v d : A) vs :
  List.last (v :: vs) d = List.last vs v.
Proof.
  revert v d. induction vs as [|r rs IH]; intros v d; [reflexivity|].
  change (List.last (v :: r :: rs) d) with (List.last (r :: rs) d).
  by rewrite !IH.
Qed.

Lemma emitAll_app fuel cell vs vs' w :
  emitAll fuel cell (vs ++ vs')%list w =
  bind (emitAll fuel cell vs) (fun _ => emitAll fuel cell vs') w.
Proof.
  revert w. induction vs as [|v vs IH]; intros w; cbn [app emitAll].
  - reflexivity.
  - unfold bind.
    destruct (emit fuel cell v w) as [[[[]|e] w1]|]; try reflexivity.
    rewrite IH. reflexivity.
Qed.

Lemma fanOut_subscribed ctor count fuel :
  subscribe (6 + fuel) (_remember 0 (Source ctor 0)) (inr (recruiter ctor count))
    emptyWorld =
  Some (Normal (Some (RememberDisconnect 0 (Named 1))),
        fanOutWorld ctor count false VUndefined []).
Proof. vm_compute. reflexivity. Qed.

Lemma fanOutWorld_received ctor count started cached got v :
  receivedBy 1 (deliver 1 v (fanOutWorld ctor count started cached got)) =
  (got ++ [v])%list.
Proof.
  rewrite receivedBy_deliver. f_equal. apply receivedBy_pairs. reflexivity.
Qed.

(** Follows a dispatch from the root producer through the callback of
    [_remember] to the recruiter, up to its test on the number of values it
    has received, which [Hcount] decides. *)
Ltac reach_recruiter Hcount :=
  unfold emit; cbn [Nat.add]; rewrite forEachObserver_step;
  match goal with
  | |- context [readSet (SourceSet 0) (fanOutWorld ?ctor ?count ?started ?cached ?got)] =>
      change (readSet (SourceSet 0) (fanOutWorld ctor count started cached got))
        with [Some (Observer (Wrapped 0) (RememberNext 0))];
      cbn [nth_error next]; unfold bind at 1;
      cbn [callNext]; unfold bind at 1; rewrite forEachObserver_step;
      change (readSet (GroupSet 0) (fanOutWorld ctor count started cached got))
        with [Some (recruiter ctor count)];
      cbn [nth_error next recruiter subscriber]; unfold bind at 1;
      cbn [callNext]; unfold bind at 1; unfold modify at 1;
      unfold bind at 1; unfold gets at 1;
      rewrite fanOutWorld_received, Hcount;
      unfold fanOutWorld; rewrite map_app;
      generalize (map (pair 1%nat) got); intros ds
  end.

(** A value that is not the recruiter's [count]-th: it receives the value,
    and the group caches it. *)
Lemma fanOut_emit ctor count fuel started cached got v :
  length (got ++ [v]) <> count ->
  emit (6 + fuel) 0 v (fanOutWorld ctor count started cached got) =
  Some (Normal tt, fanOutWorld ctor count true v (got ++ [v])).
Proof.
  intros Hcount. apply Nat.eqb_neq in Hcount.
  reach_recruiter Hcount.
  vm_compute. reflexivity.
Qed.

(** The recruiter's [count]-th value: during its fan-out the newcomer is
    subscribed and replayed the cached value, if the group has started, and
    then reached by the fan-out; the value is cached afterwards. *)
Lemma fanOut_emit_recruit ctor count fuel started cached got v :
  length (got ++ [v]) = count ->
  exists w,
    emit (6 + fuel) 0 v (fanOutWorld ctor count started cached got) =
      Some (Normal tt, w) /\
    deliveries w =
      ((map (pair 1%nat) (got ++ [v])
        ++ (if started then [(2%nat, cached)] else [])) ++ [(2%nat, v)])%list /\
    lastValue (groupAt 0 w) = v /\
    hasStarted (groupAt 0 w) = true.
Proof.
  intros Hcount. apply Nat.eqb_eq in Hcount.
  reach_recruiter Hcount.
  destruct started; eexists; (split; [vm_compute; reflexivity|]).
  - repeat split; reflexivity.
  - rewrite app_nil_r. repeat split; reflexivity.
Qed.

Lemma fanOut_emitAll ctor count fuel vs :
  forall started cached got,
    (length got + length vs < count)%nat ->
    emitAll (6 + fuel) 0 vs (fanOutWorld ctor count started cached got) =
    Some (Normal tt,
          fanOutWorld ctor count
            (match vs with [] => started | _ => true end)
            (List.last vs cached) (got ++ vs)).
Proof.
  induction vs as [|v vs IH]; intros started cached got Hlen.
  - cbn. by rewrite app_nil_r.
  - cbn [emitAll]. unfold bind. rewrite fanOut_emit.
    + rewrite IH.
      * rewrite <- app_assoc, last_cons_default. cbn [app].
        by destruct vs.
      * rewrite length_app. cbn in *. lia.
    + rewrite length_app. cbn in *. lia.
Qed.

(** The deliveries of [fanOutScenario] when the recruiter acts on the
    value [v] that follows [history]. *)
Lemma fanOut_deliveries ctor history v fuel :
  observe (fanOutScenario ctor (S (length history)) (history ++ [v]) (6 + fuel)) =
    Some (Normal
            ((map (pair 1%nat) (history ++ [v])
              ++ match history with
                 | [] => []
                 | _ => [(2%nat, List.last history VUndefined)]
                 end
              ++ [(2%nat, v)])%list, v)).
Proof.
  unfold observe, fanOutScenario.
  rewrite (outcomeOf_bind _ _ _ _ _ (fanOut_subscribed ctor _ fuel)).
  destruct (fanOut_emit_recruit ctor (S (length history)) fuel
              (match history with [] => false | _ => true end)
              (List.last history VUndefined) history v)
    as (w & Hemit & Hds & Hlast & _).
  { rewrite length_app. cbn. lia. }
  assert (Hall : emitAll (6 + fuel) 0 (history ++ [v])
                   (fanOutWorld ctor (S (length history)) false VUndefined []) =
                 Some (Normal tt, w)).
  { rewrite emitAll_app. unfold bind at 1.
    rewrite fanOut_emitAll by (cbn; lia).
    cbn [app emitAll]. unfold bind. rewrite Hemit. reflexivity. }
  rewrite (outcomeOf_bind _ _ _ _ _ Hall).
  unfold bind, gets, ret, outcomeOf. rewrite Hds, Hlast.
  rewrite <- app_assoc. by destruct history.
Qed.

(** C4, as stated, fails: when subscriber 1 subscribes a newcomer (2)
    during the fan-out of 2, after 1 had been dispatched, the deliveries do
    not go on with 2 to the newcomer: it is not replayed 2. *)
Lemma remember_replays_current_value_cex :
  ~ (exists rest cached,
       observe (fanOutScenario MotionObservableClass 2 [VNum 1; VNum 2] 8) =
         Some (Normal (([(1, VNum 1); (1, VNum 2); (2, VNum 2)] ++ rest)%list, cached))%nat).
Proof.
  intros (rest & cached & H). vm_compute in H. discriminate H.
Qed.

(** C4, amended.  A remembered stream first fans a value out to the
    registered observers, in registration order and including those
    registered meanwhile, and caches it (and sets the started flag) only
    afterwards.  So a newcomer that subscribes during the fan-out of [v] is
    replayed the value [u] cached before (whatever was dispatched before
    [u]) and then receives [v] from the fan-out under way; when [v] is the
    first value there is no replay, and the newcomer receives [v] once, from
    the fan-out. *)
Theorem remember_fans_out_before_caching :
  forall ctor earlier u v fuel,
    let history := (earlier ++ [u])%list in
    observe (fanOutScenario ctor (S (length history)) (history ++ [v]) (6 + fuel)) =
      Some (Normal ((map (pair 1%nat) (history ++ [v]) ++ [(2, u); (2, v)])%list, v))%nat /\
    observe (fanOutScenario ctor 2 [u; v] (6 + fuel)) =
      Some (Normal ([(1, u); (1, v); (2, u); (2, v)], v))%nat /\
    observe (fanOutScenario ctor 1 [v] (6 + fuel)) =
      Some (Normal ([(1, v); (2, v)], v))%nat.
Proof.
  intros ctor earlier u v fuel history.
  split; [|split; vm_compute; reflexivity].
  rewrite fanOut_deliveries. subst history.
  rewrite List.last_last. by destruct earlier.
Qed.

(** ** dedupe *)

Lemma dedupeAt_setDedupe cell st w : dedupeAt cell (setDedupe cell st w) = st.
Proof. unfold dedupeAt, setDedupe. cbn. by rewrite lookup_insert_eq. Qed.

Lemma setDedupe_setDedupe cell st st' w :
  setDedupe cell st' (setDedupe cell st w) = setDedupe cell st' w.
Proof. unfold setDedupe. cbn. by rewrite insert_insert_eq. Qed.

Lemma dedupe_subscribed ctor areEqual fuel :
  subscribe (5 + fuel) (dedupe 0 0 (Some areEqual) (Source ctor 0))
    (inr (subscriber 1 Quiet)) emptyWorld =
  Some (Normal (Some (RememberDisconnect 0 (Named 1))), dedupeWorld areEqual None []).
Proof. vm_compute. reflexivity. Qed.

(** The first value passes. *)
Lemma dedupe_emit_first areEqual fuel v :
  emit (5 + fuel) 0 v (dedupeWorld areEqual None []) =
  Some (Normal tt, dedupeWorld areEqual (Some v) [v]).
Proof. vm_compute. reflexivity. Qed.

Lemma dedupeWorld_source areEqual previous got :
  sourceObservers (sourceAt 0 (dedupeWorld areEqual previous got)) =
  [Some (Observer (Wrapped 1)
           (OperatorNext (DedupeOperation 0 areEqual) (RememberNext 0)))].
Proof. reflexivity. Qed.

Lemma dedupeWorld_state areEqual last got :
  dedupeAt 0 (dedupeWorld areEqual (Some last) got) = DedupeState true last.
Proof. reflexivity. Qed.

(** After a value unequal to the last one has been let through, the world
    is the one in which it is the last value and the subscriber has it. *)
Lemma dedupe_dispatch areEqual fuel last got v :
  callNext (S (S (S fuel))) (RememberNext 0) v
    (setDedupe 0 (DedupeState true v) (dedupeWorld areEqual (Some last) got)) =
  Some (Normal tt, dedupeWorld areEqual (Some v) (got ++ [v])).
Proof.
  unfold dedupeWorld. rewrite map_app.
  generalize (map (pair 1%nat) got). intros ds.
  vm_compute. reflexivity.
Qed.

Lemma dedupe_emit_next areEqual fuel last got v :
  emit (5 + fuel) 0 v (dedupeWorld areEqual (Some last) got) =
  Some (Normal tt,
        if areEqual v last
        then dedupeWorld areEqual (Some last) got
        else dedupeWorld areEqual (Some v) (got ++ [v])).
Proof.
  unfold emit. cbn [Nat.add].
  rewrite forEachObserver_step. cbn [readSet].
  rewrite dedupeWorld_source. cbn [nth_error next].
  unfold bind at 1. rewrite callNext_operator.
  unfold runOperation, dedupeOperation.
  unfold bind at 1. unfold gets at 1. rewrite dedupeWorld_state.
  cbn [dispatched dedupeLastValue andb].
  destruct (areEqual v last) eqn:Hequal.
  - unfold ret at 1. rewrite forEachObserver_step. cbn [readSet].
    rewrite dedupeWorld_source. reflexivity.
  - unfold bind at 1. unfold modify at 1.
    unfold bind at 1. unfold modify at 1.
    rewrite dedupeAt_setDedupe, setDedupe_setDedupe, dedupeWorld_state.
    cbn [dispatched dedupeLastValue].
    rewrite (dedupe_dispatch areEqual fuel last got v).
    rewrite forEachObserver_step. cbn [readSet].
    rewrite dedupeWorld_source. reflexivity.
Qed.

Lemma dedupe_emitAll areEqual fuel vs :
  forall last got,
    exists last',
      emitAll (5 + fuel) 0 vs (dedupeWorld areEqual (Some last) got) =
      Some (Normal tt,
            dedupeWorld areEqual (Some last')
              (got ++ deduped areEqual (Some last) vs)).
Proof.
  induction vs as [|v vs IH]; intros last got; cbn [emitAll deduped].
  - exists last. by rewrite app_nil_r.
  - unfold bind. rewrite dedupe_emit_next.
    destruct (areEqual v last).
    + apply IH.
    + destruct (IH v (got ++ [v])%list) as [last' Hrest].
      exists last'. rewrite Hrest. by rewrite <- app_assoc.
Qed.

Lemma dedupe_emitAll_fresh areEqual fuel vs :
  exists previous,
    emitAll (5 + fuel) 0 vs (dedupeWorld areEqual None []) =
    Some (Normal tt, dedupeWorld areEqual previous (deduped areEqual None vs)).
Proof.
  destruct vs as [|v vs]; [by exists None|].
  destruct (dedupe_emitAll areEqual fuel vs v [v]) as [last' Hrest].
  exists (Some last'). cbn [emitAll deduped]. unfold bind.
  rewrite dedupe_emit_first. exact Hrest.
Qed.

(** The subscriber of [dedupe(areEqual)] receives what the specification
    asks, whatever upstream dispatches. *)
Lemma dedupe_refines_deduped ctor areEqual vs fuel :
  observe (dedupeScenario ctor (Some areEqual) Quiet vs (5 + fuel)) =
    Some (Normal (deduped areEqual None vs)).
Proof.
  destruct (dedupe_emitAll_fresh areEqual fuel vs) as [previous Hall].
  unfold observe, dedupeScenario.
  rewrite (outcomeOf_bind _ _ _ _ _ (dedupe_subscribed ctor areEqual fuel)).
  rewrite (outcomeOf_bind _ _ _ _ _ Hall).
  unfold gets, outcomeOf. do 2 f_equal.
  apply receivedBy_pairs. reflexivity.
Qed.

(** C6.  [dedupe()] with the default comparator turns 1, 1, 2, 2, 2, 3 into
    1, 2, 3, and with any comparator a sequence into what the specification
    asks.  A value that is not dropped is dispatched in a world where
    [lastValue] already holds it and [dispatched] is already set; so a
    subscriber that feeds each value it receives straight back upstream gets
    it once and the dispatch returns. *)
Theorem dedupe_sequence_and_state_before_dispatch :
  forall ctor fuel comparator vs cell areEqual v dispatch w,
    dispatched (dedupeAt cell w) && areEqual v (dedupeLastValue (dedupeAt cell w)) = false ->
    observe (dedupeScenario ctor None Quiet
               [VNum 1; VNum 1; VNum 2; VNum 2; VNum 2; VNum 3] (5 + fuel)) =
      Some (Normal [VNum 1; VNum 2; VNum 3]) /\
    observe (dedupeScenario ctor (Some comparator) Quiet vs (5 + fuel)) =
      Some (Normal (deduped comparator None vs)) /\
    dedupeOperation cell areEqual v dispatch w =
      dispatch v (setDedupe cell (DedupeState true v) w) /\
    dedupeAt cell (setDedupe cell (DedupeState true v) w) = DedupeState true v /\
    observe (dedupeScenario ctor None (FeedBack 0) [VNum 1] (9 + fuel)) =
      Some (Normal [VNum 1]).
Proof.
  intros ctor fuel comparator vs cell areEqual v dispatch w Hpass.
  split; [vm_compute; reflexivity|].
  split; [apply dedupe_refines_deduped|].
  split; [|split; [apply dedupeAt_setDedupe | vm_compute; reflexivity]].
  unfold dedupeOperation, bind, gets, modify. rewrite Hpass.
  rewrite !dedupeAt_setDedupe. cbn [dispatched dedupeLastValue].
  by rewrite setDedupe_setDedupe.
Qed.

(** The theorem above at a fresh world and the value 1. *)
Lemma dedupe_sequence_and_state_before_dispatch_witness :
  observe (dedupeScenario MotionObservableClass None Quiet
             [VNum 1; VNum 1; VNum 2; VNum 2; VNum 2; VNum 3] 5) =
    Some (Normal [VNum 1; VNum 2; VNum 3]) /\
  observe (dedupeScenario MotionObservableClass (Some deepEqual) Quiet
             [VNum 1; VNum 1; VNum 2] 5) =
    Some (Normal (deduped deepEqual None [VNum 1; VNum 1; VNum 2])) /\
  dedupeOperation 0 deepEqual (VNum 1) (fun _ => ret tt) emptyWorld =
    (fun _ => ret tt) (VNum 1) (setDedupe 0 (DedupeState true (VNum 1)) emptyWorld) /\
  dedupeAt 0 (setDedupe 0 (DedupeState true (VNum 1)) emptyWorld) =
    DedupeState true (VNum 1) /\
  observe (dedupeScenario MotionObservableClass None (FeedBack 0) [VNum 1] 9) =
    Some (Normal [VNum 1]).
Proof.
  apply (dedupe_sequence_and_state_before_dispatch MotionObservableClass 0
           deepEqual [VNum 1; VNum 1; VNum 2] 0 deepEqual (VNum 1)
           (fun _ => ret tt) emptyWorld).
  reflexivity.
Defined.

(** ** inverted *)

Lemma inverted_subscribed ctor fuel :
  subscribe (3 + fuel) (inverted (Source ctor 0)) (inr (subscriber 1 Quiet))
    emptyWorld =
  Some (Normal (Some (UnsubscribeOf (Some (SourceDisconnect 0 (Wrapped 0))))),
        invertedWorld []).
Proof. vm_compute. reflexivity. Qed.

Lemma inverted_emit fuel got v :
  emit (3 + fuel) 0 v (invertedWorld got) =
  Some (Normal tt, invertedWorld (got ++ from_option (fun x => [x]) [] (toggle v))).
Proof.
  unfold invertedWorld. rewrite map_app.
  generalize (map (pair 1%nat) got). intros ds.
  destruct v as [| |[|]|[|[p|p|]|p]|s|props|name];
    cbn [toggle from_option map negb]; rewrite ?app_nil_r;
    vm_compute; reflexivity.
Qed.

Lemma inverted_emitAll fuel vs :
  forall got,
    emitAll (3 + fuel) 0 vs (invertedWorld got) =
    Some (Normal tt, invertedWorld (got ++ omap toggle vs)).
Proof.
  induction vs as [|v vs IH]; intros got; cbn [emitAll omap list_omap].
  - by rewrite app_nil_r.
  - unfold bind. rewrite inverted_emit, IH. do 3 f_equal.
    rewrite <- app_assoc. f_equal. by destruct (toggle v).
Qed.

(** C9.  [inverted()] turns 0, 1, true, false, 2 into 1, 0, false, true,
    and any sequence into the images of its recognised values; a value
    other than 0, 1, true and false is dropped: the operation returns
    without calling [dispatch] and leaves the world as it was. *)
Theorem inverted_toggles_and_drops :
  forall ctor fuel vs v dispatch w,
    toggle v = None ->
    observe (invertedScenario ctor
               [VNum 0; VNum 1; VBool true; VBool false; VNum 2] (3 + fuel)) =
      Some (Normal [VNum 1; VNum 0; VBool false; VBool true]) /\
    observe (invertedScenario ctor vs (3 + fuel)) = Some (Normal (omap toggle vs)) /\
    invertedOperation v dispatch w = Some (Normal tt, w).
Proof.
  intros ctor fuel vs v dispatch w Hv.
  assert (Hall : observe (invertedScenario ctor vs (3 + fuel)) =
                 Some (Normal (omap toggle vs))).
  { unfold observe, invertedScenario.
    rewrite (outcomeOf_bind _ _ _ _ _ (inverted_subscribed ctor fuel)).
    rewrite (outcomeOf_bind _ _ _ _ _ (inverted_emitAll fuel vs [])).
    unfold gets, outcomeOf. do 2 f_equal.
    apply receivedBy_pairs. reflexivity. }
  split; [vm_compute; reflexivity|]. split; [exact Hall|].
  destruct v as [| |b|n|s|props|name]; try reflexivity; try discriminate Hv.
  destruct n as [|p|p]; try discriminate Hv; try reflexivity.
  destruct p; try discriminate Hv; reflexivity.
Qed.

(** The theorem above at the value 2. *)
Lemma inverted_toggles_and_drops_witness :
  observe (invertedScenario MotionObservableClass
             [VNum 0; VNum 1; VBool true; VBool false; VNum 2] 3) =
    Some (Normal [VNum 1; VNum 0; VBool false; VBool true]) /\
  observe (invertedScenario MotionObservableClass [VNum 2; VBool true] 3) =
    Some (Normal (omap toggle [VNum 2; VBool true])) /\
  invertedOperation (VNum 2) (fun v => modify (deliver 1 v)) emptyWorld =
    Some (Normal tt, emptyWorld).
Proof.
  apply (inverted_toggles_and_drops MotionObservableClass 0 [VNum 2; VBool true]
           (VNum 2) (fun v => modify (deliver 1 v)) emptyWorld).
  reflexivity.
Defined.

(** ** pluck *)

Lemma getProperty_raises inherited v key :
  raises (getProperty inherited v key) <-> isNullish v = true.
Proof.
  unfold raises. destruct v; cbn; try destruct (lookupProp key props);
    split; try (intros [e H]; discriminate H); try discriminate; eauto.
Qed.

Lemma walk_raises inherited pathSegments :
  forall v,
    raises (walk inherited pathSegments v) <->
    exists k, nullishAfter inherited pathSegments v k.
Proof.
  unfold nullishAfter.
  induction pathSegments as [|pathSegment rest IH]; intros v; cbn [walk].
  - split.
    + intros [e H]. discriminate H.
    + intros (k & Hk & _). cbn in Hk. lia.
  - destruct (getProperty inherited v pathSegment) as [r|e] eqn:Hget.
    + assert (Hv : isNullish v = false).
      { destruct (isNullish v) eqn:Hn; [|reflexivity].
        destruct (proj2 (getProperty_raises inherited v pathSegment) Hn) as [e He].
        rewrite Hget in He. discriminate He. }
      rewrite IH. split.
      * intros (k & Hk & r' & Hwalk & Hnull).
        exists (S k). split; [cbn; lia|].
        exists r'. cbn [take walk]. rewrite Hget. auto.
      * intros (k & Hk & r' & Hwalk & Hnull). destruct k as [|k].
        -- cbn in Hwalk. injection Hwalk as <-. congruence.
        -- exists k. split; [cbn in Hk; lia|].
           exists r'. cbn [take walk] in Hwalk. rewrite Hget in Hwalk. auto.
    + split; [|intros _; exists e; reflexivity].
      intros _. exists 0%nat. split; [cbn; lia|].
      exists v. split; [reflexivity|].
      apply (getProperty_raises inherited v pathSegment). exists e. exact Hget.
Qed.

(** C10, as stated, fails: [pluck('a')] fails on the received value [null],
    though no path segment has resolved to anything yet (there is no [k]
    with [1 <= k] segments walked and a segment still pending). *)
Lemma pluck_fails_on_nullish_input_cex :
  ~ (raises (createPlucker noInherited "a" VNull) <->
     exists k, (1 <= k)%nat /\ nullishAfter noInherited (split "."%char "a") VNull k).
Proof.
  intros [Hfails _].
  destruct Hfails as (k & Hk & Hlt & _).
  - exists (TypeError "a" VNull). reflexivity.
  - cbn in Hlt. lia.
Qed.

(** C10, amended.  [pluck('a.b')] dispatches 7 on [{a: {b: 7}}]; on
    [{a: null}] it throws a [TypeError], which reaches the caller of the
    dispatch, and the subscriber receives nothing.  In general the plucker
    fails exactly when the received value itself, or the value some
    intermediate segment resolves to, is [null] or [undefined] while a
    segment is still to be read. *)
Theorem pluck_fails_iff_nullish_before_last :
  forall inherited ctor fuel path v,
    observe (pluckScenario inherited ctor (3 + fuel)) =
      Some (Normal (Normal tt, [VNum 7], Throw (TypeError "b" VNull), [VNum 7])) /\
    (raises (createPlucker inherited path v) <->
     exists k, nullishAfter inherited (split "."%char path) v k).
Proof.
  intros. split; [vm_compute; reflexivity|]. apply walk_raises.
Qed.

(** ** Unsubscribing *)



(** ** debounce *)





Section DebounceRun.

Variables (source cell name : nat).





End DebounceRun.




(** * Further properties *)

(** ** Chains of stateless operators *)

Lemma invertedOperation_toggle v dispatch w :
  invertedOperation v dispatch w =
  match toggle v with
  | Some result => dispatch result w
  | None => Some (Normal tt, w)
  end.
Proof.
  destruct v as [| |[|]|[|[p|p|]|p]|s|props|name]; reflexivity.
Qed.

(** A value received by the first operator of a chain reaches the
    subscriber as [through] says. *)
Lemma chainNext_through ops :
  forallb stateless ops = true ->
  forall fuel name v w,
    callNext (S (length ops + fuel)) (chainNext ops (SinkNext name Quiet)) v w =
    match through ops v with
    | Normal (Some result) => Some (Normal tt, deliver name result w)
    | Normal None => Some (Normal tt, w)
    | Throw e => Some (Throw e, w)
    end.
Proof.
  induction ops as [|op ops IH]; intros Hops fuel name v w.
  - reflexivity.
  - cbn [forallb] in Hops. apply andb_prop in Hops as [Hop Hops].
    cbn [length Nat.add chainNext through]. rewrite callNext_operator.
    destruct op; try discriminate Hop; cbn [runOperation handsOn].
    + unfold mapToOperation. by rewrite IH.
    + rewrite invertedOperation_toggle. destruct (toggle v); [by rewrite IH|reflexivity].
    + unfold mapOperation, bind, liftCompletion.
      destruct (transform v); cbv [ret throw]; [by rewrite IH|reflexivity].
    + unfold filterOperation. destruct (predicate v); [by rewrite IH|reflexivity].
Qed.

Lemma chain_emit ops fuel got v :
  forallb stateless ops = true ->
  emit (S (S (length ops + fuel))) 0 v (chainWorld ops got) =
  match through ops v with
  | Normal (Some result) => Some (Normal tt, chainWorld ops (got ++ [result]))
  | Normal None => Some (Normal tt, chainWorld ops got)
  | Throw e => Some (Throw e, chainWorld ops got)
  end.
Proof.
  intros Hops. unfold emit. rewrite forEachObserver_step.
  change (readSet (SourceSet 0) (chainWorld ops got))
    with [Some (Observer (Wrapped (pred (length ops)))
                  (chainNext ops (SinkNext 1 Quiet)))].
  cbn [nth_error next]. unfold bind.
  rewrite (chainNext_through ops Hops).
  destruct (through ops v) as [[result|]|e]; try reflexivity.
  rewrite forEachObserver_step.
  change (readSet (SourceSet 0) (deliver 1 result (chainWorld ops got)))
    with [Some (Observer (Wrapped (pred (length ops)))
                  (chainNext ops (SinkNext 1 Quiet)))].
  cbn [nth_error]. unfold chainWorld, deliver. cbn. by rewrite map_app.
Qed.

Lemma chain_emitAll ops fuel vs :
  forallb stateless ops = true ->
  forall got,
    emitAll (S (S (length ops + fuel))) 0 vs (chainWorld ops got) =
    Some (fst (runThrough ops got vs), chainWorld ops (snd (runThrough ops got vs))).
Proof.
  intros Hops. induction vs as [|v vs IH]; intros got; cbn [emitAll runThrough].
  - reflexivity.
  - unfold bind. rewrite (chain_emit ops fuel got v Hops).
    destruct (through ops v) as [[result|]|e]; [apply IH|apply IH|reflexivity].
Qed.

(** What [pipelineScenario] observes for a chain, once the subscription has
    led to [chainWorld]. *)
Lemma chain_observed ops s sub vs fuel :
  forallb stateless ops = true ->
  subscribe (S (S (length ops + fuel))) s (inr (subscriber 1 Quiet)) emptyWorld =
    Some (Normal sub, chainWorld ops []) ->
  observe (pipelineScenario s vs (S (S (length ops + fuel)))) =
    Some (match runThrough ops [] vs with
          | (Normal _, got) => Normal got
          | (Throw e, _) => Throw e
          end).
Proof.
  intros Hops Hsub. unfold observe, pipelineScenario.
  rewrite (outcomeOf_bind _ _ _ _ _ Hsub).
  unfold bind. rewrite (chain_emitAll ops fuel vs Hops).
  destruct (runThrough ops [] vs) as [[[]|e] got]; cbn [fst snd]; [|reflexivity].
  unfold gets, outcomeOf. do 2 f_equal. by apply receivedBy_pairs.
Qed.

Lemma runThrough_ext ops ops' :
  (forall v, through ops v = through ops' v) ->
  forall vs got, runThrough ops got vs = runThrough ops' got vs.
Proof.
  intros Hsame. induction vs as [|v vs IH]; intros got; cbn [runThrough].
  - reflexivity.
  - rewrite <- Hsame. destruct (through ops v) as [[result|]|e]; auto.
Qed.

Lemma runThrough_map transform vs :
  forall got,
    runThrough [MapOperation transform] got vs =
    match mapUntilThrow transform vs with
    | Normal results => (Normal tt, (got ++ results)%list)
    | Throw e =>
        (Throw e, snd (runThrough [MapOperation transform] got vs))
    end.
Proof.
  induction vs as [|v vs IH]; intros got; cbn [runThrough mapUntilThrow through handsOn].
  - by rewrite app_nil_r.
  - destruct (transform v) as [result|e]; [|reflexivity].
    rewrite IH. destruct (mapUntilThrow transform vs); [|reflexivity].
    by rewrite <- app_assoc.
Qed.

Lemma map_subscribed ctor transform fuel :
  subscribe (3 + fuel) (_map transform (Source ctor 0)) (inr (subscriber 1 Quiet))
    emptyWorld =
  Some (Normal (Some (UnsubscribeOf (Some (SourceDisconnect 0 (Wrapped 0))))),
        chainWorld [MapOperation transform] []).
Proof. vm_compute. reflexivity. Qed.

Lemma map_observed ctor transform vs fuel :
  observe (pipelineScenario (_map transform (Source ctor 0)) vs (3 + fuel)) =
    Some (mapUntilThrow transform vs).
Proof.
  etransitivity; [exact (chain_observed [MapOperation transform] _ _ vs fuel eq_refl
             (map_subscribed ctor transform fuel))|].
  rewrite runThrough_map. by destruct (mapUntilThrow transform vs).
Qed.

Lemma mapUntilThrow_total (f : value -> value) vs :
  mapUntilThrow (fun v => Normal (f v)) vs = Normal (map f vs).
Proof. induction vs as [|v vs IH]; cbn; [reflexivity|by rewrite IH]. Qed.

Lemma omap_cons_match {A B} (f : A -> option B) x xs :
  omap f (x :: xs) =
  match f x with
  | Some y => y :: omap f xs
  | None => omap f xs
  end.
Proof. reflexivity. Qed.

Lemma chain_dispatchEach ops fuel vs :
  forallb stateless ops = true ->
  forall got,
    dispatchEach (S (S (length ops + fuel))) 0 vs (chainWorld ops got) =
    Some (Normal (map (outcomeThrough ops) vs),
          chainWorld ops (got ++ omap (resultThrough ops) vs)).
Proof.
  intros Hops. induction vs as [|v vs IH]; intros got.
  - cbn. by rewrite app_nil_r.
  - rewrite omap_cons_match. cbn [dispatchEach map].
    unfold bind at 1. unfold attempt. rewrite (chain_emit ops fuel got v Hops).
    unfold outcomeThrough at 1. unfold resultThrough at 1.
    destruct (through ops v) as [[result|]|e]; unfold bind; rewrite IH;
      cbn [ret]; try reflexivity.
    by rewrite <- app_assoc.
Qed.

Lemma map_guarded ctor transform vs fuel :
  observe (guardedScenario (_map transform (Source ctor 0)) vs (3 + fuel)) =
    Some (Normal (map (endsWith transform) vs,
                  omap (resultOfTransform transform) vs)).
Proof.
  unfold observe, guardedScenario.
  rewrite (outcomeOf_bind _ _ _ _ _ (map_subscribed ctor transform fuel)).
  rewrite (outcomeOf_bind _ _ _ _ _
             (chain_dispatchEach [MapOperation transform] fuel vs eq_refl [])).
  unfold bind, gets, ret, outcomeOf. cbn [app].
  rewrite (receivedBy_pairs 1 (omap (resultThrough [MapOperation transform]) vs))
    by reflexivity.
  do 3 f_equal.
  - apply map_ext. intros v. unfold outcomeThrough, endsWith.
    cbn [through handsOn]. by destruct (transform v).
  - induction vs as [|v vs IH]; [reflexivity|].
    rewrite !omap_cons_match. rewrite IH.
    unfold resultThrough, resultOfTransform. cbn [through handsOn].
    by destruct (transform v).
Qed.

(** X1.  For each value upstream dispatches, the subscriber of
    [_map(transform)] receives the result of [transform], once and in
    order.  When [transform] throws on a value, the exception reaches the
    caller of that dispatch and the subscriber receives nothing for that
    value; what it had received before stays as it was, and the values
    dispatched afterwards are transformed and delivered as usual.  A caller
    that stops at the first exception has seen the results up to it; when
    [transform] never throws, the subscriber receives the image of the
    whole sequence. *)
Theorem map_dispatches_each_result :
  forall ctor transform (f : value -> value) vs fuel,
    observe (guardedScenario (_map transform (Source ctor 0)) vs (3 + fuel)) =
      Some (Normal (map (endsWith transform) vs,
                    omap (resultOfTransform transform) vs)) /\
    observe (pipelineScenario (_map transform (Source ctor 0)) vs (3 + fuel)) =
      Some (mapUntilThrow transform vs) /\
    observe (pipelineScenario (_map (fun v => Normal (f v)) (Source ctor 0)) vs
               (3 + fuel)) =
      Some (Normal (map f vs)).
Proof.
  intros. split; [apply map_guarded|]. split; [apply map_observed|].
  rewrite map_observed. by rewrite mapUntilThrow_total.
Qed.

Lemma runThrough_filter predicate vs :
  forall got,
    runThrough [FilterOperation predicate] got vs =
    (Normal tt, (got ++ List.filter predicate vs)%list).
Proof.
  induction vs as [|v vs IH]; intros got;
    cbn [runThrough through handsOn List.filter].
  - by rewrite app_nil_r.
  - destruct (predicate v); rewrite IH; [by rewrite <- app_assoc|reflexivity].
Qed.

Lemma filter_subscribed ctor predicate fuel :
  subscribe (3 + fuel) (_filter predicate (Source ctor 0)) (inr (subscriber 1 Quiet))
    emptyWorld =
  Some (Normal (Some (UnsubscribeOf (Some (SourceDisconnect 0 (Wrapped 0))))),
        chainWorld [FilterOperation predicate] []).
Proof. vm_compute. reflexivity. Qed.

(** X2.  The subscriber of [_filter(predicate)] receives exactly the values
    for which [predicate] holds, unchanged and in the order upstream
    dispatched them. *)
Theorem filter_dispatches_accepted :
  forall ctor predicate vs fuel,
    observe (pipelineScenario (_filter predicate (Source ctor 0)) vs (3 + fuel)) =
      Some (Normal (List.filter predicate vs)).
Proof.
  intros.
  etransitivity; [exact (chain_observed [FilterOperation predicate] _ _ vs fuel eq_refl
             (filter_subscribed ctor predicate fuel))|].
  by rewrite runThrough_filter.
Qed.

Lemma runThrough_mapTo constant vs :
  forall got,
    runThrough [MapToOperation constant] got vs =
    (Normal tt, (got ++ map (fun _ => constant) vs)%list).
Proof.
  induction vs as [|v vs IH]; intros got; cbn [runThrough through handsOn map].
  - by rewrite app_nil_r.
  - rewrite IH. by rewrite <- app_assoc.
Qed.

Lemma mapTo_subscribed ctor constant fuel :
  subscribe (3 + fuel) (mapTo constant (Source ctor 0)) (inr (subscriber 1 Quiet))
    emptyWorld =
  Some (Normal (Some (UnsubscribeOf (Some (SourceDisconnect 0 (Wrapped 0))))),
        chainWorld [MapToOperation constant] []).
Proof. vm_compute. reflexivity. Qed.

(** X3.  The subscriber of [mapTo(constant)] receives [constant] once for
    every value upstream dispatches, whatever the values are. *)
Theorem mapTo_dispatches_constant :
  forall ctor constant vs fuel,
    observe (pipelineScenario (mapTo constant (Source ctor 0)) vs (3 + fuel)) =
      Some (Normal (repeat constant (length vs))).
Proof.
  intros.
  etransitivity; [exact (chain_observed [MapToOperation constant] _ _ vs fuel eq_refl
             (mapTo_subscribed ctor constant fuel))|].
  rewrite runThrough_mapTo. cbn [app]. do 2 f_equal.
  induction vs as [|v vs IH]; cbn; [reflexivity|by rewrite IH].
Qed.

Lemma map_map_subscribed ctor first second fuel :
  subscribe (4 + fuel) (_map second (_map first (Source ctor 0)))
    (inr (subscriber 1 Quiet)) emptyWorld =
  Some (Normal (Some (UnsubscribeOf (Some (UnsubscribeOf
                  (Some (SourceDisconnect 0 (Wrapped 1))))))),
        chainWorld [MapOperation first; MapOperation second] []).
Proof. vm_compute. reflexivity. Qed.

(** X4.  Two [_map]s in a row behave as one [_map] of the composed
    transform: the subscriber receives the same values and the caller sees
    the same exception, if any. *)
Theorem map_map_is_map_of_composition :
  forall ctor first second vs fuel,
    observe (pipelineScenario (_map second (_map first (Source ctor 0))) vs
               (4 + fuel)) =
    observe (pipelineScenario (_map (andThen first second) (Source ctor 0)) vs
               (3 + fuel)).
Proof.
  intros.
  etransitivity; [exact (chain_observed [MapOperation first; MapOperation second] _ _ vs fuel
             eq_refl (map_map_subscribed ctor first second fuel))|].
  symmetry.
  etransitivity; [exact (chain_observed [MapOperation (andThen first second)] _ _ vs fuel
             eq_refl (map_subscribed ctor (andThen first second) fuel))|].
  symmetry.
  rewrite (runThrough_ext [MapOperation first; MapOperation second]
             [MapOperation (andThen first second)]); [reflexivity|].
  intros v. cbn [through handsOn]. unfold andThen.
  destruct (first v) as [result|e]; [|reflexivity].
  by destruct (second result).
Qed.

Lemma filter_filter_subscribed ctor first second fuel :
  subscribe (4 + fuel) (_filter second (_filter first (Source ctor 0)))
    (inr (subscriber 1 Quiet)) emptyWorld =
  Some (Normal (Some (UnsubscribeOf (Some (UnsubscribeOf
                  (Some (SourceDisconnect 0 (Wrapped 1))))))),
        chainWorld [FilterOperation first; FilterOperation second] []).
Proof. vm_compute. reflexivity. Qed.

(** X5.  Two [_filter]s in a row let through exactly the values that both
    predicates accept, in the order upstream dispatched them. *)
Theorem filter_filter_is_conjunction :
  forall ctor first second vs fuel,
    observe (pipelineScenario (_filter second (_filter first (Source ctor 0))) vs
               (4 + fuel)) =
      Some (Normal (List.filter (fun v => first v && second v) vs)).
Proof.
  intros.
  etransitivity; [exact (chain_observed [FilterOperation first; FilterOperation second] _ _ vs
             fuel eq_refl (filter_filter_subscribed ctor first second fuel))|].
  rewrite (runThrough_ext _ [FilterOperation (fun v => first v && second v)]).
  - by rewrite runThrough_filter.
  - intros v. cbn [through handsOn]. destruct (first v); [|reflexivity].
    cbn [through handsOn andb]. by destruct (second v).
Qed.

Lemma toggle_toggle v result : toggle v = Some result -> toggle result = Some v.
Proof.
  destruct v as [| |[|]|[|[p|p|]|p]|s|props|name]; cbn; intros H;
    try discriminate H; injection H as <-; reflexivity.
Qed.

Lemma inverted_inverted_subscribed ctor fuel :
  subscribe (4 + fuel) (inverted (inverted (Source ctor 0)))
    (inr (subscriber 1 Quiet)) emptyWorld =
  Some (Normal (Some (UnsubscribeOf (Some (UnsubscribeOf
                  (Some (SourceDisconnect 0 (Wrapped 1))))))),
        chainWorld [InvertedOperation; InvertedOperation] []).
Proof. vm_compute. reflexivity. Qed.

(** X6.  [inverted()] twice gives back 0, 1, [true] and [false] as they were
    received, and still drops every other value: it is not the identity but
    a filter on the four recognised values. *)
Theorem inverted_twice_keeps_recognised :
  forall ctor vs fuel,
    observe (pipelineScenario (inverted (inverted (Source ctor 0))) vs (4 + fuel)) =
      Some (Normal (List.filter toggles vs)).
Proof.
  intros.
  etransitivity; [exact (chain_observed [InvertedOperation; InvertedOperation] _ _ vs fuel
             eq_refl (inverted_inverted_subscribed ctor fuel))|].
  rewrite (runThrough_ext _ [FilterOperation toggles]).
  - by rewrite runThrough_filter.
  - intros v. cbn [through handsOn]. unfold toggles.
    destruct (toggle v) as [result|] eqn:Hv; [|reflexivity].
    by rewrite (toggle_toggle v result Hv).
Qed.

(** ** The path resolver *)

Lemma splitAux_app sep a b :
  forall current,
    splitAux sep (a ++ String sep b) current =
    (splitAux sep a current ++ splitAux sep b EmptyString)%list.
Proof.
  induction a as [|c a IH]; intros current.
  - change ("" ++ String sep b) with (String sep b).
    cbn [splitAux]. by rewrite Ascii.eqb_refl.
  - change (String c a ++ String sep b) with (String c (a ++ String sep b)).
    cbn [splitAux]. destruct (Ascii.eqb c sep); cbn [app]; by rewrite IH.
Qed.

Lemma splitAux_nonempty sep s : forall current, splitAux sep s current <> [].
Proof.
  induction s as [|c s IH]; intros current; cbn [splitAux]; [discriminate|].
  destruct (Ascii.eqb c sep); [discriminate|apply IH].
Qed.

Lemma walk_app inherited first second v :
  walk inherited (first ++ second) v =
  match walk inherited first v with
  | Normal result => walk inherited second result
  | Throw e => Throw e
  end.
Proof.
  revert v. induction first as [|segment first IH]; intros v; cbn [app walk].
  - reflexivity.
  - destruct (getProperty inherited v segment); [apply IH|reflexivity].
Qed.

(** X7.  A plucker for the path [first.second] gives what the plucker for
    [second] gives on the result of the plucker for [first], and fails where
    either of them fails: [pluck('translate.x')] is [pluck('translate')]
    followed by [pluck('x')], as the documentation of [pluck] says. *)
Theorem plucker_of_joined_path :
  forall inherited first second v,
    createPlucker inherited (first ++ String "."%char second) v =
    andThen (createPlucker inherited first) (createPlucker inherited second) v.
Proof.
  intros. unfold createPlucker, andThen, split.
  by rewrite splitAux_app, walk_app.
Qed.

(** X8.  Whatever the path, the empty one included, a plucker reads at
    least one property of the value it receives: on [null] and on
    [undefined] it always throws, naming the first segment of the path. *)
Theorem plucker_throws_on_nullish :
  forall inherited path v,
    isNullish v = true ->
    exists first rest,
      split "."%char path = first :: rest /\
      createPlucker inherited path v = Throw (TypeError first v).
Proof.
  intros inherited path v Hv. unfold createPlucker.
  destruct (split "."%char path) as [|first rest] eqn:Hsplit.
  - exfalso. exact (splitAux_nonempty _ _ _ Hsplit).
  - exists first, rest. split; [reflexivity|].
    cbn [walk]. by destruct v.
Qed.

(** The theorem above at the empty path and [null]. *)
Lemma plucker_throws_on_nullish_witness :
  exists first rest,
    split "."%char "" = first :: rest /\
    createPlucker noInherited "" VNull = Throw (TypeError first VNull).
Proof.
  apply (plucker_throws_on_nullish noInherited "" VNull). reflexivity.
Defined.

(** ** log without a path *)

Lemma plainLog_subscribed inherited ctor label fuel :
  subscribe (3 + fuel) (log inherited label None (Source ctor 0))
    (inr (subscriber 1 Quiet)) emptyWorld =
  Some (Normal (Some (UnsubscribeOf (Some (SourceDisconnect 0 (Wrapped 0))))),
        logWorld (default "" label) []).
Proof. vm_compute. reflexivity. Qed.

Lemma plainLog_emit label fuel got v :
  emit (3 + fuel) 0 v (logWorld label got) =
  Some (Normal tt, logWorld label (got ++ [v])).
Proof.
  unfold logWorld. rewrite !map_app.
  generalize (map (pair label) got) (map (pair 1%nat) got). intros cs ds.
  vm_compute. reflexivity.
Qed.

Lemma plainLog_emitAll label fuel vs :
  forall got,
    emitAll (3 + fuel) 0 vs (logWorld label got) =
    Some (Normal tt, logWorld label (got ++ vs)).
Proof.
  induction vs as [|v vs IH]; intros got; cbn [emitAll].
  - by rewrite app_nil_r.
  - unfold bind. rewrite plainLog_emit, IH. by rewrite <- app_assoc.
Qed.

(** X9.  Without a [pluckPath], [log] has no effect on the rest of the
    chain: the subscriber receives every value upstream dispatches, as it
    is and in order, and each value is logged once under the label (the
    empty string when none is given). *)
Theorem log_without_path_is_transparent :
  forall inherited ctor label vs fuel,
    observe (plainLogScenario inherited ctor label vs (3 + fuel)) =
      Some (Normal (vs, map (pair (default "" label)) vs)).
Proof.
  intros. unfold observe, plainLogScenario.
  rewrite (outcomeOf_bind _ _ _ _ _ (plainLog_subscribed inherited ctor label fuel)).
  rewrite (outcomeOf_bind _ _ _ _ _ (plainLog_emitAll (default "" label) fuel vs [])).
  unfold bind, gets, ret, outcomeOf. cbn [app].
  by rewrite (receivedBy_pairs 1 vs (logWorld (default "" label) vs) eq_refl).
Qed.

(** ** One observer subscribed twice *)

Lemma soloGroup_subscribed ctor fuel :
  subscribe (6 + fuel) (_remember 0 (Source ctor 0)) (inr (subscriber 1 Quiet))
    emptyWorld =
  Some (Normal (Some (RememberDisconnect 0 (Named 1))),
        soloGroupWorld [] false VUndefined []).
Proof. vm_compute. reflexivity. Qed.

Lemma soloGroup_emit warned fuel started cached ds v :
  emit (6 + fuel) 0 v (soloGroupWorld warned started cached ds) =
  Some (Normal tt, soloGroupWorld warned true v (ds ++ [(1%nat, v)])%list).
Proof. vm_compute. reflexivity. Qed.

Lemma soloGroup_emitAll warned fuel vs :
  forall started cached ds,
    emitAll (6 + fuel) 0 vs (soloGroupWorld warned started cached ds) =
    Some (Normal tt,
          soloGroupWorld warned
            (match vs with [] => started | _ => true end)
            (List.last vs cached) (ds ++ map (pair 1%nat) vs)%list).
Proof.
  induction vs as [|v vs IH]; intros started cached ds.
  - cbn. by rewrite app_nil_r.
  - cbn [emitAll]. unfold bind. rewrite soloGroup_emit, IH.
    rewrite <- app_assoc, last_cons_default. by destruct vs.
Qed.

(** The same observer object again: a warning, and nothing else. *)
Lemma soloGroup_subscribed_again ctor warned fuel started cached ds :
  subscribe (6 + fuel) (_remember 0 (Source ctor 0)) (inr (subscriber 1 Quiet))
    (soloGroupWorld warned started cached ds) =
  Some (Normal None,
        soloGroupWorld (warned ++ [Named 1])%list started cached ds).
Proof. vm_compute. reflexivity. Qed.

Lemma duplicateTail_spec fuel started cached ds :
  outcomeOf (duplicateTail (Some (RememberDisconnect 0 (Named 1))) None (6 + fuel)
               (soloGroupWorld [Named 1] started cached ds)) =
  Some (Normal (None, 1, 1, [Named 1], ds, 1, 0))%nat.
Proof. vm_compute. reflexivity. Qed.

(** X10.  Subscribing to a remembered stream an observer object that is
    already subscribed logs a warning and changes nothing else: the
    [subscribe] call hands back a subscription without a teardown and
    replays nothing, every value dispatched before or after reaches the
    observer once, giving up the second subscription leaves the first in
    place (upstream and the group still hold one observer), and giving up
    the first tears upstream down. *)
Theorem remember_ignores_duplicate_observer :
  forall ctor vs vs' fuel,
    observe (duplicateScenario ctor vs vs' (6 + fuel)) =
      Some (Normal (None, 1, 1, [Named 1], map (pair 1) (vs ++ vs')%list, 1, 0))%nat.
Proof.
  intros. unfold observe, duplicateScenario.
  rewrite (outcomeOf_bind _ _ _ _ _ (soloGroup_subscribed ctor fuel)).
  rewrite (outcomeOf_bind _ _ _ _ _ (soloGroup_emitAll [] fuel vs _ _ _)).
  rewrite (outcomeOf_bind _ _ _ _ _ (soloGroup_subscribed_again ctor [] fuel _ _ _)).
  rewrite (outcomeOf_bind _ _ _ _ _ (soloGroup_emitAll _ fuel vs' _ _ _)).
  cbn [app]. rewrite duplicateTail_spec. by rewrite map_app.
Qed.

(** ** Sharing an operator *)

Lemma coldLog_subscribed inherited ctor label fuel :
  (_ <- subscribe (6 + fuel) (log inherited label None (Source ctor 0))
          (inr (subscriber 1 Quiet)) ;;
   subscribe (6 + fuel) (log inherited label None (Source ctor 0))
     (inr (subscriber 2 Quiet))) emptyWorld =
  Some (Normal (Some (UnsubscribeOf (Some (SourceDisconnect 0 (Wrapped 1))))),
        coldLogWorld (default "" label) [] []).
Proof. vm_compute. reflexivity. Qed.

Lemma coldLog_emit label fuel logged ds v :
  emit (6 + fuel) 0 v (coldLogWorld label logged ds) =
  Some (Normal tt,
        coldLogWorld label ((logged ++ [(label, v)]) ++ [(label, v)])%list
          ((ds ++ [(1%nat, v)]) ++ [(2%nat, v)])%list).
Proof. vm_compute. reflexivity. Qed.

Lemma coldLog_emitAll label fuel vs :
  forall logged ds,
    emitAll (6 + fuel) 0 vs (coldLogWorld label logged ds) =
    Some (Normal tt,
          coldLogWorld label
            (logged ++ flat_map (fun v => [(label, v); (label, v)]) vs)%list
            (ds ++ toBoth vs)%list).
Proof.
  induction vs as [|v vs IH]; intros logged ds; cbn [emitAll flat_map toBoth].
  - by rewrite !app_nil_r.
  - unfold bind. rewrite coldLog_emit, IH. by rewrite <- !app_assoc.
Qed.

Lemma sharedLog_subscribed inherited ctor label fuel :
  (_ <- subscribe (6 + fuel) (_remember 0 (log inherited label None (Source ctor 0)))
          (inr (subscriber 1 Quiet)) ;;
   subscribe (6 + fuel) (_remember 0 (log inherited label None (Source ctor 0)))
     (inr (subscriber 2 Quiet))) emptyWorld =
  Some (Normal (Some (RememberDisconnect 0 (Named 2))),
        sharedLogWorld (default "" label) false VUndefined [] []).
Proof. vm_compute. reflexivity. Qed.

Lemma sharedLog_emit label fuel started cached logged ds v :
  emit (6 + fuel) 0 v (sharedLogWorld label started cached logged ds) =
  Some (Normal tt,
        sharedLogWorld label true v (logged ++ [(label, v)])%list
          ((ds ++ [(1%nat, v)]) ++ [(2%nat, v)])%list).
Proof. vm_compute. reflexivity. Qed.

Lemma sharedLog_emitAll label fuel vs :
  forall started cached logged ds,
    exists started' cached',
      emitAll (6 + fuel) 0 vs (sharedLogWorld label started cached logged ds) =
      Some (Normal tt,
            sharedLogWorld label started' cached'
              (logged ++ map (pair label) vs)%list (ds ++ toBoth vs)%list).
Proof.
  induction vs as [|v vs IH]; intros started cached logged ds;
    cbn [emitAll map flat_map toBoth].
  - exists started, cached. by rewrite !app_nil_r.
  - destruct (IH true v (logged ++ [(label, v)])%list
                ((ds ++ [(1%nat, v)]) ++ [(2%nat, v)])%list)
      as (started' & cached' & Hrest).
    exists started', cached'. unfold bind. rewrite sharedLog_emit, Hrest.
    by rewrite <- !app_assoc.
Qed.


(** X11.  Two subscribers of [log(label)] each have their own subscription
    upstream, and every value is logged twice; two subscribers of
    [log(label)._remember()] share one subscription upstream, and every
    value is logged once.  Either way each value reaches subscriber 1 and
    then subscriber 2. *)
Theorem remember_runs_operator_once :
  forall inherited ctor label vs fuel,
    observe (sharingScenario (log inherited label None (Source ctor 0)) vs
               (6 + fuel)) =
      Some (Normal (2%nat,
                    flat_map (fun v => [(default "" label, v); (default "" label, v)]) vs,
                    toBoth vs)) /\
    observe (sharingScenario (_remember 0 (log inherited label None (Source ctor 0)))
               vs (6 + fuel)) =
      Some (Normal (1%nat, map (pair (default "" label)) vs, toBoth vs)).
Proof.
  intros. split; unfold observe, sharingScenario.
  - pose proof (coldLog_subscribed inherited ctor label fuel) as Hsub.
    unfold bind at 1 in Hsub. unfold bind at 1 2.
    destruct (subscribe (6 + fuel) _ (inr (subscriber 1 Quiet)) emptyWorld)
      as [[[sub1|e] w1]|]; try discriminate Hsub.
    rewrite Hsub.
    unfold bind at 1. rewrite coldLog_emitAll. reflexivity.
  - pose proof (sharedLog_subscribed inherited ctor label fuel) as Hsub.
    unfold bind at 1 in Hsub. unfold bind at 1 2.
    destruct (subscribe (6 + fuel) _ (inr (subscriber 1 Quiet)) emptyWorld)
      as [[[sub1|e] w1]|]; try discriminate Hsub.
    rewrite Hsub.
    destruct (sharedLog_emitAll (default "" label) fuel vs false VUndefined [] [])
      as (started' & cached' & Hall).
    unfold bind at 1. rewrite Hall. reflexivity.
Qed.

(** ** An observer that throws during the fan-out *)

Lemma throwingObserver_subscribed ctor transform fuel :
  (_ <- subscribe (6 + fuel) (_remember 0 (Source ctor 0)) (inr (subscriber 1 Quiet)) ;;
   _ <- subscribe (6 + fuel) (_map transform (_remember 0 (Source ctor 0)))
          (inr (subscriber 2 Quiet)) ;;
   subscribe (6 + fuel) (_remember 0 (Source ctor 0)) (inr (subscriber 3 Quiet)))
    emptyWorld =
  Some (Normal (Some (RememberDisconnect 0 (Named 3))),
        throwingObserverWorld transform false VUndefined []).
Proof. vm_compute. reflexivity. Qed.

Lemma callNext_remember fuel cell v :
  callNext (S fuel) (RememberNext cell) v =
  (forEachObserver fuel (GroupSet cell) 0 v ;;
   modify (fun w =>
     let g := groupAt cell w in
     setGroup cell (RememberState (observers g) (upstream g) (lastValue g) true) w) ;;
   modify (fun w =>
     let g := groupAt cell w in
     setGroup cell (RememberState (observers g) (upstream g) v (hasStarted g)) w)).
Proof. reflexivity. Qed.

(** The group hands [v] to its observers: the first receives it, the
    second runs [transform], and the third is reached when that returns. *)
Lemma throwingObserver_fanOut transform fuel started cached ds v :
  forEachObserver (S (S (S (S fuel)))) (GroupSet 0) 0 v
    (throwingObserverWorld transform started cached ds) =
  match transform v with
  | Normal result =>
      Some (Normal tt,
            throwingObserverWorld transform started cached
              (((ds ++ [(1%nat, v)]) ++ [(2%nat, result)]) ++ [(3%nat, v)])%list)
  | Throw e =>
      Some (Throw e,
            throwingObserverWorld transform started cached (ds ++ [(1%nat, v)])%list)
  end.
Proof.
  rewrite forEachObserver_step.
  change (readSet (GroupSet 0) (throwingObserverWorld transform started cached ds))
    with [Some (subscriber 1 Quiet);
          Some (Observer (Wrapped 1)
                  (OperatorNext (MapOperation transform) (SinkNext 2 Quiet)));
          Some (subscriber 3 Quiet)].
  cbn [nth_error next subscriber]. unfold bind at 1.
  change (callNext (S (S (S fuel))) (SinkNext 1 Quiet) v
            (throwingObserverWorld transform started cached ds))
    with (Some (Normal tt,
                throwingObserverWorld transform started cached (ds ++ [(1%nat, v)])%list)).
  cbv beta iota. rewrite forEachObserver_step.
  change (readSet (GroupSet 0)
            (throwingObserverWorld transform started cached (ds ++ [(1%nat, v)])%list))
    with [Some (subscriber 1 Quiet);
          Some (Observer (Wrapped 1)
                  (OperatorNext (MapOperation transform) (SinkNext 2 Quiet)));
          Some (subscriber 3 Quiet)].
  cbn [nth_error next]. unfold bind at 1. rewrite callNext_operator.
  unfold runOperation, mapOperation. unfold bind at 1.
  destruct (transform v) as [result|e]; [|reflexivity].
  unfold liftCompletion, ret at 1.
  generalize (ds ++ [(1%nat, v)])%list. intros ds1.
  vm_compute. reflexivity.
Qed.

Lemma throwingObserver_emit transform fuel started cached ds v :
  emit (6 + fuel) 0 v (throwingObserverWorld transform started cached ds) =
  match transform v with
  | Normal result =>
      Some (Normal tt,
            throwingObserverWorld transform true v
              (ds ++ [(1%nat, v); (2%nat, result); (3%nat, v)])%list)
  | Throw e =>
      Some (Throw e,
            throwingObserverWorld transform started cached (ds ++ [(1%nat, v)])%list)
  end.
Proof.
  unfold emit. cbn [Nat.add]. rewrite forEachObserver_step.
  change (readSet (SourceSet 0) (throwingObserverWorld transform started cached ds))
    with [Some (Observer (Wrapped 0) (RememberNext 0))].
  cbn [nth_error next]. unfold bind at 1. rewrite callNext_remember.
  unfold bind at 1.
  rewrite (throwingObserver_fanOut transform fuel started cached ds v).
  destruct (transform v) as [result|e]; [|reflexivity].
  rewrite <- !app_assoc. cbn [app].
  generalize (ds ++ [(1%nat, v); (2%nat, result); (3%nat, v)])%list. intros ds1.
  vm_compute. reflexivity.
Qed.

Lemma throwingObserver_dispatchEach transform fuel vs :
  forall started cached ds,
    dispatchEach (6 + fuel) 0 vs (throwingObserverWorld transform started cached ds) =
    Some (Normal (map (endsWith transform) vs),
          throwingObserverWorld transform
            (started || existsb (passes transform) vs)
            (List.last (List.filter (passes transform) vs) cached)
            (ds ++ flat_map (fanOutOf transform) vs)).
Proof.
  induction vs as [|v vs IH]; intros started cached ds.
  - cbn. by rewrite orb_false_r, app_nil_r.
  - cbn [dispatchEach map existsb List.filter flat_map].
    unfold bind at 1. unfold attempt. rewrite throwingObserver_emit.
    destruct (transform v) as [result|e] eqn:Hv.
    + assert (passes transform v = true) as -> by (unfold passes; by rewrite Hv).
      assert (endsWith transform v = Normal tt) as -> by (unfold endsWith; by rewrite Hv).
      assert (fanOutOf transform v = [(1%nat, v); (2%nat, result); (3%nat, v)]) as ->
        by (unfold fanOutOf; by rewrite Hv).
      unfold bind. rewrite IH. cbn [ret orb].
      rewrite last_cons_default, orb_true_r. by rewrite <- app_assoc.
    + assert (passes transform v = false) as -> by (unfold passes; by rewrite Hv).
      assert (endsWith transform v = Throw e) as -> by (unfold endsWith; by rewrite Hv).
      assert (fanOutOf transform v = [(1%nat, v)]) as ->
        by (unfold fanOutOf; by rewrite Hv).
      unfold bind. rewrite IH. cbn [ret orb]. by rewrite <- app_assoc.
Qed.

Lemma throwingObserver_latecomer ctor transform fuel outcomes started cached ds :
  outcomeOf
    ((before <- gets deliveries ;;
      g <- gets (groupAt 0) ;;
      _ <- subscribe (6 + fuel) (_remember 0 (Source ctor 0))
             (inr (subscriber 4 Quiet)) ;;
      after <- gets deliveries ;;
      ret (outcomes : list (completion unit), before, hasStarted g, lastValue g, after))
       (throwingObserverWorld transform started cached ds)) =
  Some (Normal (outcomes, ds, started, cached,
                (ds ++ if started then [(4%nat, cached)] else [])%list)).
Proof.
  destruct started; [|rewrite app_nil_r]; vm_compute; reflexivity.
Qed.

(** X12.  An observer of a remembered stream may throw: here the second of
    three, which stands behind [_map(transform)], for any [transform] and
    any values.  When it throws on a value, the exception reaches the
    caller of that upstream dispatch, the observer registered before it has
    received the value, the observer registered after it has not, and the
    value is not cached: the started flag and the cached value stay as they
    were.  A value on which it does not throw reaches all three in
    registration order and is cached.  A subscriber that comes afterwards is
    replayed the last value on which nothing was thrown, and nothing when
    there is none. *)
Theorem remember_fan_out_stops_at_exception :
  forall ctor transform vs fuel,
    observe (throwingObserverScenario ctor transform vs (6 + fuel)) =
      Some (Normal (map (endsWith transform) vs,
                    flat_map (fanOutOf transform) vs,
                    existsb (passes transform) vs,
                    List.last (List.filter (passes transform) vs) VUndefined,
                    (flat_map (fanOutOf transform) vs ++
                     if existsb (passes transform) vs
                     then [(4%nat, List.last (List.filter (passes transform) vs) VUndefined)]
                     else [])%list)).
Proof.
  intros. unfold observe, throwingObserverScenario.
  pose proof (throwingObserver_subscribed ctor transform fuel) as Hsub.
  unfold bind in Hsub at 1. unfold bind at 1.
  destruct (subscribe (6 + fuel) (_remember 0 (Source ctor 0))
              (inr (subscriber 1 Quiet)) emptyWorld) as [[[sub1|e] w1]|];
    [|discriminate Hsub..].
  unfold bind in Hsub at 1. unfold bind at 1.
  destruct (subscribe (6 + fuel) (_map transform (_remember 0 (Source ctor 0)))
              (inr (subscriber 2 Quiet)) w1) as [[[sub2|e] w2]|];
    [|discriminate Hsub..].
  unfold bind at 1. rewrite Hsub.
  unfold bind at 1. rewrite throwingObserver_dispatchEach.
  cbn [orb app].
  apply throwingObserver_latecomer.
Qed.

(** ** _read *)

Lemma received_of_pairs name m got :
  map snd (List.filter (fun d : nat * value => Nat.eqb (fst d) name)
             (map (pair m) got)) =
  if Nat.eqb m name then got else [].
Proof.
  induction got as [|v got IH]; cbn.
  - by destruct (Nat.eqb m name).
  - destruct (Nat.eqb m name); cbn; [by rewrite IH|exact IH].
Qed.

Lemma receivedBy_pairs_then name m got extra w :
  deliveries w = (map (pair m) got ++ extra)%list ->
  receivedBy name w =
  ((if Nat.eqb m name then got else [])
   ++ map snd (List.filter (fun d : nat * value => Nat.eqb (fst d) name) extra))%list.
Proof.
  intros Hds. unfold receivedBy.
  by rewrite Hds, List.filter_app, map_app, received_of_pairs.
Qed.

Lemma receivedBy_pairs_other name m got w :
  deliveries w = map (pair m) got ->
  Nat.eqb m name = false ->
  receivedBy name w = [].
Proof.
  intros Hds Hother. unfold receivedBy.
  by rewrite Hds, received_of_pairs, Hother.
Qed.

(** The reader comes and goes while subscriber 1 stays. *)
Lemma reader_visits_group ctor fuel v ds :
  exists w,
    (sub <- subscribe (6 + fuel) (_remember 0 (Source ctor 0))
              (inl (SinkNext 2 Quiet)) ;;
     unsubscribe (6 + fuel) sub) (soloGroupWorld [] true v ds) =
      Some (Normal tt, w) /\
    deliveries w = (ds ++ [(2%nat, v)])%list /\
    connects (sourceAt 0 w) = 1%nat /\
    disconnects (sourceAt 0 w) = 0%nat /\
    setSize (observers (groupAt 0 w)) = 1%nat.
Proof. eexists. split; [vm_compute; reflexivity|]. repeat split; reflexivity. Qed.

Lemma group_deserted fuel v ds :
  unsubscribe (6 + fuel) (Some (RememberDisconnect 0 (Named 1)))
    (soloGroupWorld [] true v ds) =
  Some (Normal tt, desertedGroupWorld v ds).
Proof. vm_compute. reflexivity. Qed.

(** The reader comes and goes when nobody is subscribed. *)
Lemma reader_visits_deserted_group ctor fuel v ds :
  exists w,
    (sub <- subscribe (6 + fuel) (_remember 0 (Source ctor 0))
              (inl (SinkNext 2 Quiet)) ;;
     unsubscribe (6 + fuel) sub) (desertedGroupWorld v ds) =
      Some (Normal tt, w) /\
    deliveries w = (ds ++ [(2%nat, v)])%list /\
    connects (sourceAt 0 w) = 2%nat /\
    disconnects (sourceAt 0 w) = 2%nat /\
    setSize (observers (groupAt 0 w)) = 0%nat.
Proof. eexists. split; [vm_compute; reflexivity|]. repeat split; reflexivity. Qed.

(** [_read] when the reader has received nothing before: the value it
    returns is the last one the reader's visit has brought. *)
Lemma read_by_fresh_reader fuel name s w w' :
  receivedBy name w = [] ->
  (sub <- subscribe fuel s (inl (SinkNext name Quiet)) ;; unsubscribe fuel sub) w =
    Some (Normal tt, w') ->
  _read fuel name s w =
    Some (Normal (List.last (receivedBy name w') VUndefined), w').
Proof.
  intros Hnone Hvisit. unfold _read, bind, gets, ret in *. rewrite Hnone.
  destruct (subscribe fuel s (inl (SinkNext name Quiet)) w) as [[[sub|e] w1]|];
    try discriminate Hvisit.
  by rewrite Hvisit.
Qed.

Lemma read_started_group ctor leaveFirst history v fuel :
  observe (readScenario ctor leaveFirst (history ++ [v]) (6 + fuel)) =
    Some (Normal (v,
                  if leaveFirst then 2 else 1,
                  if leaveFirst then 2 else 0,
                  if leaveFirst then 0 else 1,
                  history ++ [v]))%nat%list.
Proof.
  unfold observe, readScenario.
  rewrite (outcomeOf_bind _ _ _ _ _ (soloGroup_subscribed ctor fuel)).
  rewrite (outcomeOf_bind _ _ _ _ _
             (soloGroup_emitAll [] fuel (history ++ [v]) false VUndefined [])).
  replace (match (history ++ [v])%list with [] => false | _ => true end)
    with true by (by destruct history).
  rewrite List.last_last. cbn [app].
  set (got := (history ++ [v])%list).
  destruct leaveFirst.
  - rewrite (outcomeOf_bind _ _ _ _ _ (group_deserted fuel v _)).
    destruct (reader_visits_deserted_group ctor fuel v (map (pair 1%nat) got))
      as (w & Hvisit & Hds & Hc & Hd & Hm).
    rewrite (outcomeOf_bind _ _ _ _ _
               (read_by_fresh_reader _ 2 _ _ w
                  (receivedBy_pairs_other 2 1 got
                     (desertedGroupWorld v (map (pair 1%nat) got)) eq_refl eq_refl)
                  Hvisit)).
    unfold bind, gets, ret, outcomeOf. rewrite Hc, Hd, Hm.
    rewrite (receivedBy_pairs_then 2 1 got _ w Hds).
    rewrite (receivedBy_pairs_then 1 1 got _ w Hds). cbn. by rewrite app_nil_r.
  - unfold bind at 1. unfold ret at 1.
    destruct (reader_visits_group ctor fuel v (map (pair 1%nat) got))
      as (w & Hvisit & Hds & Hc & Hd & Hm).
    rewrite (outcomeOf_bind _ _ _ _ _
               (read_by_fresh_reader _ 2 _ _ w
                  (receivedBy_pairs_other 2 1 got
                     (soloGroupWorld [] true v (map (pair 1%nat) got)) eq_refl eq_refl)
                  Hvisit)).
    unfold bind, gets, ret, outcomeOf. rewrite Hc, Hd, Hm.
    rewrite (receivedBy_pairs_then 2 1 got _ w Hds).
    rewrite (receivedBy_pairs_then 1 1 got _ w Hds). cbn. by rewrite app_nil_r.
Qed.

(** X13.  [_read] on a remembered stream that has dispatched returns the
    last value dispatched.  While another subscriber is there the reading
    leaves upstream alone (no new subscribe call, no teardown) and the group
    as it was; when the last subscriber has left, the reading still returns
    the value dispatched before the teardown, subscribing to upstream and
    tearing it down once more.  The other subscriber receives nothing from
    the reading. *)
Theorem read_returns_last_value :
  forall ctor history v fuel,
    observe (readScenario ctor false (history ++ [v]) (6 + fuel)) =
      Some (Normal (v, 1, 0, 1, history ++ [v]))%nat%list /\
    observe (readScenario ctor true (history ++ [v]) (6 + fuel)) =
      Some (Normal (v, 2, 2, 0, history ++ [v]))%nat%list.
Proof.
  intros. split.
  - exact (read_started_group ctor false history v fuel).
  - exact (read_started_group ctor true history v fuel).
Qed.

Lemma idle_emitAll fuel vs :
  emitAll (6 + fuel) 0 vs emptyWorld = Some (Normal tt, emptyWorld).
Proof.
  induction vs as [|v vs IH]; cbn [emitAll]; [reflexivity|].
  unfold bind.
  replace (emit (6 + fuel) 0 v emptyWorld) with (Some (Normal tt, emptyWorld))
    by (vm_compute; reflexivity).
  exact IH.
Qed.

(** X14.  [_read] returns [undefined] on a stream that dispatches nothing
    while it is being subscribed to, whatever upstream has dispatched
    before: a root producer, a stream made by [_nextOperator], a remembered
    stream that nobody has subscribed to yet.  The reading subscribes to
    upstream and tears the subscription down again. *)
Theorem read_of_cold_stream_is_undefined :
  forall ctor op vs fuel,
    observe (coldReadScenario (Source ctor 0) vs (6 + fuel)) =
      Some (Normal (VUndefined, 1, 1, 0))%nat /\
    observe (coldReadScenario (_nextOperator op (Source ctor 0)) vs (6 + fuel)) =
      Some (Normal (VUndefined, 1, 1, 0))%nat /\
    observe (coldReadScenario (_remember 0 (Source ctor 0)) vs (6 + fuel)) =
      Some (Normal (VUndefined, 1, 1, 0))%nat.
Proof.
  intros. unfold observe, coldReadScenario.
  rewrite !(outcomeOf_bind _ _ _ _ _ (idle_emitAll fuel vs)).
  repeat split; vm_compute; reflexivity.
Qed.

(** ** merge *)













(** ** dedupe: consecutive values *)

Lemma deduped_distinct areEqual vs :
  forall previous,
    (forall last first rest,
       previous = Some last ->
       deduped areEqual previous vs = first :: rest ->
       areEqual first last = false) /\
    (forall i a b,
       deduped areEqual previous vs !! i = Some a ->
       deduped areEqual previous vs !! S i = Some b ->
       areEqual b a = false).
Proof.
  induction vs as [|v vs IH]; intros previous; cbn [deduped].
  - split; [discriminate|]. intros i a b Ha. by destruct i.
  - destruct previous as [last|].
    + destruct (areEqual v last) eqn:Hequal.
      * apply IH.
      * destruct (IH (Some v)) as [Hhead Hrest]. split.
        -- intros last' first rest [= <-] [= <- _]. exact Hequal.
        -- intros [|i] a b Ha Hb; [|exact (Hrest i a b Ha Hb)].
           cbn in Ha, Hb. injection Ha as <-.
           destruct (deduped areEqual (Some v) vs) as [|first rest] eqn:Hd;
             [discriminate Hb|].
           cbn in Hb. injection Hb as <-.
           exact (Hhead v first rest eq_refl eq_refl).
    + destruct (IH (Some v)) as [Hhead Hrest]. split; [discriminate|].
      intros [|i] a b Ha Hb; [|exact (Hrest i a b Ha Hb)].
      cbn in Ha, Hb. injection Ha as <-.
      destruct (deduped areEqual (Some v) vs) as [|first rest] eqn:Hd;
        [discriminate Hb|].
      cbn in Hb. injection Hb as <-.
      exact (Hhead v first rest eq_refl eq_refl).
Qed.


(** X17.  Whatever upstream dispatches and whatever the comparator, the
    subscriber of [dedupe(areEqual)] never receives a value that the
    comparator reports equal to the one it received just before; and the
    first value upstream dispatches is always received. *)
Theorem dedupe_never_repeats :
  forall ctor areEqual vs fuel,
    exists got,
      observe (dedupeScenario ctor (Some areEqual) Quiet vs (5 + fuel)) =
        Some (Normal got) /\
      (forall i a b, got !! i = Some a -> got !! S i = Some b -> areEqual b a = false) /\
      head got = head vs.
Proof.
  intros. exists (deduped areEqual None vs).
  split; [apply dedupe_refines_deduped|]. split.
  - apply (deduped_distinct areEqual vs None).
  - by destruct vs.
Qed.

(** ** debounce: a shared buffer *)






(** * Dispatches that throw, schedules and teardowns *)

(** ** The subscribers of one operator stream *)



















(** ** What the crowd receives *)













(** ** debounce: one buffer for all subscribers *)





(** ** Unsubscribing: what is released *)







(** ** What a computation keeps *)

Section Keeps.

Context (R : world -> world -> Prop).
Hypothesis R_refl : forall w, R w w.
Hypothesis R_trans : forall w1 w2 w3, R w1 w2 -> R w2 w3 -> R w1 w3.








Lemma keeps_attempt {A} (m : M A) : keeps R m -> keeps R (attempt m).
Proof.
  intros Hm w c w' H. unfold attempt in H.
  destruct (m w) as [[c1 w1]|] eqn:Hrun; [|discriminate H].
  injection H as _ <-. exact (Hm _ _ _ Hrun).
Qed.

End Keeps.





(** ** The started flag is never unset *)








(** ** No teardown touches a cache *)







(** ** The next first subscriber *)








(** ** Teardown and return: dedupe, and a remembered upstream *)













